(** * Tic-tac-toe with move history: the game logic of [src/App.tsx]

    The React component [Game] keeps five pieces of state ([status],
    [moves], [cells], [moveId], [gameOver]) and three event handlers
    ([makeTurn], [goToMove], [startNewGame]).  A handler reads the state of
    the render it was created in and queues writes through the setters; the
    next render sees the queued writes.  The embedding below keeps that
    shape: a handler is a function of the rendered [Session] that runs in a
    small state-and-exception monad over the pending session.

    Nothing in the source updates an array or a cell in place: [map] and
    [slice] build new arrays and the object spread builds a new cell.  The
    board a history entry shares with [cells] after [goToMove] is therefore
    modelled as a value. *)

From stdpp Require Import base list strings pretty.
From Stdlib Require Import Lia.

Open Scope string_scope.

(** ** Data model *)

(** [_GAME_ERRORS] and [ErrKind]. *)
Inductive ErrKind :=
  | CELL_ALREADY_HAS_VALUE
  | GAME_IS_OVER_CANNOT_MAKE_THE_MOVE.

Definition _GAME_ERRORS (kind : ErrKind) : string :=
  match kind with
  | CELL_ALREADY_HAS_VALUE => "This cell already has value"
  | GAME_IS_OVER_CANNOT_MAKE_THE_MOVE =>
      "The Game is already over. You cannot make the move"
  end.

(** What a [try] block can catch: a [GameError] of some kind, or the
    [TypeError] of reading [.value] of [undefined] in [cellValue]. *)
Inductive Thrown :=
  | GameError (kind : ErrKind)
  | TypeError.

(** [CellValue = 'X' | 'O' | null | number].  No code path stores a number
    ([createCells] writes [null], [makeTurn] writes ['X'] or ['O']); the arm
    is kept because the type has it, with an integer payload.  Only strict
    equality and truthiness of a value are ever observed. *)
Inductive CellValue :=
  | X
  | O
  | null
  | num (n : Z).

Inductive GameStatus :=
  | X_turn
  | O_turn
  | X_won
  | O_won
  | Stalemate.

(** [Cell] and [MoveHistoryEntry].  The source reuses the field names [id],
    [cells] and [status]; here a cell has [cell_id] and an entry has
    [entry_cells] and [entry_status].  Identifiers and move numbers are
    small non-negative counters and are kept in [nat]. *)
Record Cell := mkCell { cell_id : nat; value : CellValue }.

Record MoveHistoryEntry := mkMove {
  id : nat;
  entry_cells : list Cell;
  entry_status : GameStatus;
  label : string
}.

Global Instance ErrKind_eq_dec : EqDecision ErrKind.
Proof. solve_decision. Defined.
Global Instance Thrown_eq_dec : EqDecision Thrown.
Proof. solve_decision. Defined.
Global Instance CellValue_eq_dec : EqDecision CellValue.
Proof. solve_decision. Defined.
Global Instance GameStatus_eq_dec : EqDecision GameStatus.
Proof. solve_decision. Defined.
Global Instance Cell_eq_dec : EqDecision Cell.
Proof. solve_decision. Defined.
Global Instance MoveHistoryEntry_eq_dec : EqDecision MoveHistoryEntry.
Proof. solve_decision. Defined.

(** The text of a status: [GameStatus] is a union of string literals. *)
Definition status_text (s : GameStatus) : string :=
  match s with
  | X_turn => "X turn"
  | O_turn => "O turn"
  | X_won => "X won"
  | O_won => "O won"
  | Stalemate => "Stalemate"
  end.

(** JavaScript truthiness of a cell value, as tested by [if (c.value)]. *)
Definition truthy (v : CellValue) : bool :=
  match v with
  | X | O => true
  | null => false
  | num n => negb (Z.eqb n 0)
  end.

(** Strict equality [===] on cell values. *)
Definition strict_eq (a b : CellValue) : bool := bool_decide (a = b).

(** [createCells]: ids [1..9], every value [null]. *)
Definition createCells : list Cell :=
  (fun i => mkCell (i + 1) null) <$> seq 0 9.

(** ** The win detector *)

Definition winConditions : list (nat * nat * nat) :=
  [ (1, 2, 3); (4, 5, 6); (7, 8, 9);
    (1, 4, 7); (2, 5, 8); (3, 6, 9);
    (1, 5, 9); (3, 5, 7) ].

(** [cells.find(c => c.id === id)!.value].  [None] stands for the
    [TypeError] raised when [find] returns [undefined]. *)
Fixpoint cellValue (cells : list Cell) (i : nat) : option CellValue :=
  match cells with
  | [] => None
  | c :: rest => if Nat.eqb (cell_id c) i then Some (value c) else cellValue rest i
  end.

(** The [for (const slice of winConditions)] loop.  The third lookup is
    guarded by [&&], so it only happens when the first two values agree. *)
Fixpoint checkLines (cells : list Cell) (lines : list (nat * nat * nat))
  : option (option GameStatus) :=
  match lines with
  | [] => Some None
  | (i0, i1, i2) :: rest =>
      v0 ← cellValue cells i0;
      v1 ← cellValue cells i1;
      if strict_eq v0 v1 then
        v2 ← cellValue cells i2;
        if strict_eq v1 v2 then
          if strict_eq v0 O then Some (Some O_won)
          else if strict_eq v0 X then Some (Some X_won)
          else checkLines cells rest
        else checkLines cells rest
      else checkLines cells rest
  end.

Definition checkWinCondition (cells : list Cell) : option (option GameStatus) :=
  checkLines cells winConditions.

(** ** History entries *)

(** [createMove(id, cells, status, label?)].  An absent label is [None];
    the empty string is falsy as well. *)
Definition createMove (i : nat) (cells : list Cell) (status : GameStatus)
    (lbl : option string) : MoveHistoryEntry :=
  let updatedLabel :=
    match lbl with
    | Some l => if bool_decide (l = "") then
                  (if Nat.eqb i 0 then "Go to game start"
                   else "Go to move #" +:+ pretty i)
                else l
    | None => if Nat.eqb i 0 then "Go to game start"
              else "Go to move #" +:+ pretty i
    end in
  mkMove i cells status updatedLabel.

(** ** Session state and the handler monad *)

Record Session := mkSession {
  status : GameStatus;
  moves : list MoveHistoryEntry;
  cells : list Cell;
  moveId : nat;
  gameOver : bool
}.

Global Instance Session_eq_dec : EqDecision Session.
Proof. solve_decision. Defined.

(** The first render: the initial values given to [useState]. *)
Definition initial : Session :=
  mkSession X_turn [createMove 0 createCells X_turn None] createCells 0 false.

Module Handler.

(** A handler body transforms the pending session and either completes
    with a value or throws. *)
Definition t (A : Type) : Type := Session → Session * (Thrown + A).

Definition ret {A} (a : A) : t A := fun p => (p, inr a).

Definition throw {A} (e : Thrown) : t A := fun p => (p, inl e).

Definition bind {A B} (m : t A) (k : A → t B) : t B :=
  fun p =>
    match m p with
    | (p', inl e) => (p', inl e)
    | (p', inr a) => k a p'
    end.

(** A computation that may throw but touches no state. *)
Definition lift {A} (r : Thrown + A) : t A := fun p => (p, r).

Definition setStatus (v : GameStatus) : t unit := fun p =>
  (mkSession v (moves p) (cells p) (moveId p) (gameOver p), inr tt).
Definition setMoves (v : list MoveHistoryEntry) : t unit := fun p =>
  (mkSession (status p) v (cells p) (moveId p) (gameOver p), inr tt).
Definition setCells (v : list Cell) : t unit := fun p =>
  (mkSession (status p) (moves p) v (moveId p) (gameOver p), inr tt).
Definition setMoveId (v : nat) : t unit := fun p =>
  (mkSession (status p) (moves p) (cells p) v (gameOver p), inr tt).
Definition setGameOver (v : bool) : t unit := fun p =>
  (mkSession (status p) (moves p) (cells p) (moveId p) v, inr tt).

End Handler.

Declare Scope handler_scope.
Delimit Scope handler_scope with handler.
Notation "'let*' x := m 'in' k" := (Handler.bind m (fun x => k))
  (at level 10, x name, m at level 100, k at level 200) : handler_scope.
Notation "m ;; k" := (Handler.bind m (fun _ => k))
  (at level 100, k at level 200, right associativity) : handler_scope.

(** ** The event handlers of [Game] *)

(** [goToMove({ cells, status, id })]. *)
Definition goToMove (e : MoveHistoryEntry) : Handler.t unit :=
  (Handler.setMoveId (id e) ;;
   Handler.setStatus (entry_status e) ;;
   Handler.setCells (entry_cells e))%handler.

(** [startNewGame()]. *)
Definition startNewGame : Handler.t unit :=
  (Handler.setStatus X_turn ;;
   Handler.setMoves [createMove 0 createCells X_turn None] ;;
   Handler.setCells createCells ;;
   Handler.setMoveId 0 ;;
   Handler.setGameOver false)%handler.

(** The callback of [cells.map] in [makeTurn]: it throws on the first cell
    that carries the clicked id and a truthy value. *)
Fixpoint markCells (st : GameStatus) (target : nat) (cs : list Cell)
  : Thrown + list Cell :=
  match cs with
  | [] => inr []
  | c :: rest =>
      if Nat.eqb (cell_id c) target then
        if truthy (value c) then inl (GameError CELL_ALREADY_HAS_VALUE)
        else
          match markCells st target rest with
          | inl e => inl e
          | inr rest' =>
              inr (mkCell (cell_id c)
                     (if bool_decide (st = X_turn) then X else O) :: rest')
          end
      else
        match markCells st target rest with
        | inl e => inl e
        | inr rest' => inr (c :: rest')
        end
  end.

(** The body of the [try] block of [makeTurn], up to the [await].  [s] is
    the rendered session the closure reads; writes go to the pending
    session.  It completes with the final values of the locals [gameOver]
    and [updatedStatus]. *)
Definition makeTurn_try (s : Session) (cell : Cell)
  : Handler.t (option GameStatus * GameStatus) :=
  ((if bool_decide (status s = X_won) || bool_decide (status s = O_won)
    then Handler.throw (GameError GAME_IS_OVER_CANNOT_MAKE_THE_MOVE)
    else Handler.ret tt) ;;
   let* updatedCells :=
     Handler.lift (markCells (status s) (cell_id cell) (cells s)) in
   let* won := Handler.lift (match checkWinCondition updatedCells with
                             | Some r => inr r
                             | None => inl TypeError
                             end) in
   let updatedStatus0 :=
     match won with
     | Some w => w
     | None => if bool_decide (status s = X_turn) then O_turn else X_turn
     end in
   Handler.setCells updatedCells ;;
   Handler.setStatus updatedStatus0 ;;
   let updatedMoveId := moveId s + 1 in
   Handler.setMoveId updatedMoveId ;;
   let stalemate := Nat.eqb updatedMoveId 9 && negb (bool_decide (is_Some won)) in
   let gameOver' := if stalemate then Some Stalemate else won in
   let updatedStatus := if stalemate then Stalemate else updatedStatus0 in
   let lbl :=
     match gameOver' with
     | Some _ => Some ("Go to game over: " +:+ status_text updatedStatus)
     | None => None
     end in
   Handler.setGameOver (bool_decide (is_Some gameOver')) ;;
   let updatedMoves :=
     (take updatedMoveId (moves s)
        ++ [createMove updatedMoveId updatedCells updatedStatus lbl])%list in
   Handler.setMoves updatedMoves ;;
   Handler.setStatus updatedStatus ;;
   Handler.ret (gameOver', updatedStatus))%handler.

(** [makeTurn]: the [try] block, the [alert] after a finished game and the
    [catch] clause, which alerts the message of a [GameError] and swallows
    anything else.  The result is the session of the next render and the
    alert shown, if any. *)
Definition makeTurn (s : Session) (cell : Cell) : Session * option string :=
  match makeTurn_try s cell s with
  | (p, inr (Some _, updatedStatus)) =>
      (p, Some ("Game is over! " +:+ status_text updatedStatus))
  | (p, inr (None, _)) => (p, None)
  | (p, inl (GameError kind)) => (p, Some (_GAME_ERRORS kind))
  | (p, inl TypeError) => (p, None)
  end.

(** ** The three intents of the rendered page *)

(** [Board] renders one clickable [Cell] per element of [cells] and hands
    that element to [makeTurn]; [MovesHistory] renders one button per
    element of [moves] and hands its fields to [goToMove]; the
    "Start new Game!" button is rendered only while [gameOver] holds. *)
Inductive Intent :=
  | cellClicked (c : Cell)
  | historyEntryClicked (e : MoveHistoryEntry)
  | newGameRequested.

Definition offered (s : Session) (i : Intent) : Prop :=
  match i with
  | cellClicked c => c ∈ cells s
  | historyEntryClicked e => e ∈ moves s
  | newGameRequested => gameOver s = true
  end.

(** The session of the next render. *)
Definition dispatch (s : Session) (i : Intent) : Session :=
  match i with
  | cellClicked c => fst (makeTurn s c)
  | historyEntryClicked e => fst (goToMove e s)
  | newGameRequested => fst (startNewGame s)
  end.

Inductive reachable : Session → Prop :=
  | reachable_initial : reachable initial
  | reachable_step s i :
      reachable s → offered s i → reachable (dispatch s i).

(** The cell the board currently shows under identifier [n]. *)
Definition cellAt (s : Session) (n : nat) : option Cell :=
  snd <$> list_find (fun c => cell_id c = n) (cells s).

(** Clicking that cell. *)
Definition click (n : nat) (s : Session) : Session :=
  match cellAt s n with
  | Some c => dispatch s (cellClicked c)
  | None => s
  end.

Definition clicks (ns : list nat) (s : Session) : Session :=
  foldl (fun s n => click n s) s ns.

(** A move is accepted when the [try] block runs to its end. *)
Definition accepted (s : Session) (cell : Cell) : bool :=
  match snd (makeTurn_try s cell s) with
  | inr _ => true
  | inl _ => false
  end.

(** A sequence of legal moves, given by the identifiers clicked: every
    click has to be accepted. *)
Fixpoint applyMoves (s : Session) (ns : list nat) : option Session :=
  match ns with
  | [] => Some s
  | n :: rest =>
      match cellAt s n with
      | Some c =>
          if accepted s c then applyMoves (fst (makeTurn s c)) rest else None
      | None => None
      end
  end.

(** ** Vocabulary of the claims *)

Definition terminal (st : GameStatus) : bool :=
  match st with
  | X_won | O_won | Stalemate => true
  | X_turn | O_turn => false
  end.

Definition otherTurn (st : GameStatus) : GameStatus :=
  match st with
  | X_turn => O_turn
  | _ => X_turn
  end.

(** The current board and status are the snapshot stored at the current
    move index. *)
Definition snapshotAtIndex (s : Session) : bool :=
  match moves s !! moveId s with
  | Some e =>
      bool_decide (entry_cells e = cells s) &&
      bool_decide (entry_status e = status s)
  | None => false
  end.

(** A finished game without a winner: X plays 1, 3, 4, 8, 9 and O plays
    2, 5, 6, 7. *)
Definition drawn : Session := clicks [1; 2; 3; 5; 4; 6; 8; 7; 9] initial.

(** The scenario of the specification: X takes the left column. *)
Definition xWins : Session := clicks [1; 2; 4; 3; 7] initial.

Definition isEmpty (c : Cell) : bool := bool_decide (value c = null).

Definition countNonEmpty (cs : list Cell) : nat :=
  length (filter (fun c => isEmpty c = false) cs).

Definition countEmpty (cs : list Cell) : nat :=
  length (filter (fun c => isEmpty c = true) cs).

(** A well-formed board: nine cells, each identifier [1..9] exactly once. *)
Definition occurrences (i : nat) (cs : list Cell) : nat :=
  length (filter (fun c => cell_id c = i) cs).

Definition wellFormed (cs : list Cell) : bool :=
  bool_decide (length cs = 9) &&
  forallb (fun i => Nat.eqb (occurrences i cs) 1) (seq 1 9).

(** The status, the local [gameOver] and the label computed by an accepted
    move, as functions of the rendered session and of the win detector's
    answer on the new board. *)
Definition nextStatus (s : Session) (won : option GameStatus) : GameStatus :=
  match won with
  | Some w => w
  | None => if Nat.eqb (moveId s + 1) 9 then Stalemate else otherTurn (status s)
  end.

Definition nextGameOver (s : Session) (won : option GameStatus)
  : option GameStatus :=
  match won with
  | Some w => Some w
  | None => if Nat.eqb (moveId s + 1) 9 then Some Stalemate else None
  end.

Definition nextLabel (s : Session) (won : option GameStatus) : option string :=
  match nextGameOver s won with
  | Some _ => Some ("Go to game over: " +:+ status_text (nextStatus s won))
  | None => None
  end.

(** The session committed by an accepted move. *)
Definition committed (s : Session) (updatedCells : list Cell)
    (won : option GameStatus) : Session :=
  mkSession (nextStatus s won)
    (take (moveId s + 1) (moves s)
       ++ [createMove (moveId s + 1) updatedCells (nextStatus s won)
             (nextLabel s won)])%list
    updatedCells (moveId s + 1)
    (bool_decide (is_Some (nextGameOver s won))).

(** What [cells.map] does to one cell when nothing throws. *)
Definition markOne (st : GameStatus) (target : nat) (c : Cell) : Cell :=
  if Nat.eqb (cell_id c) target
  then mkCell (cell_id c) (if bool_decide (st = X_turn) then X else O)
  else c.

Definition occupied (target : nat) (c : Cell) : bool :=
  Nat.eqb (cell_id c) target && truthy (value c).

Definition markOrNull (v : CellValue) : bool :=
  match v with
  | X | O | null => true
  | num _ => false
  end.

(** The grid: cell [i] sits in row [(i - 1) / 3] and column [(i - 1) mod 3]
    of the 3x3 layout [Board] renders. *)
Definition rows : list (nat * nat * nat) :=
  (fun r => (3 * r + 1, 3 * r + 2, 3 * r + 3)) <$> seq 0 3.

Definition columns : list (nat * nat * nat) :=
  (fun c => (c + 1, c + 4, c + 7)) <$> seq 0 3.

Definition diagonals : list (nat * nat * nat) := [ (1, 5, 9); (3, 5, 7) ].

(** The win status of a mark. *)
Definition wonBy (v : CellValue) : option GameStatus :=
  match v with
  | X => Some X_won
  | O => Some O_won
  | _ => None
  end.

(** A player's mark holds all three identifiers of a line. *)
Definition holds (m : CellValue) (cs : list Cell) (line : nat * nat * nat)
  : bool :=
  let '(i0, i1, i2) := line in
  bool_decide (cellValue cs i0 = Some m) &&
  bool_decide (cellValue cs i1 = Some m) &&
  bool_decide (cellValue cs i2 = Some m).

Definition opponent (m : CellValue) : CellValue :=
  match m with
  | X => O
  | O => X
  | v => v
  end.

(** The board read cell by cell, without the detector's lookup: some cell
    of the board carries identifier [i] and value [v]. *)
Definition carries (cs : list Cell) (i : nat) (v : CellValue) : bool :=
  existsb (fun c => Nat.eqb (cell_id c) i && bool_decide (value c = v)) cs.

(** A player's mark sits in a cell for each of the three identifiers of a
    line. *)
Definition lineHeld (m : CellValue) (cs : list Cell)
    (line : nat * nat * nat) : bool :=
  let '(i0, i1, i2) := line in
  carries cs i0 m && carries cs i1 m && carries cs i2 m.

(** The three cell values of a line are equal and non-empty: a non-empty
    cell carries the first identifier, and cells with its value carry the
    other two. *)
Definition lineComplete (cs : list Cell) (line : nat * nat * nat) : bool :=
  let '(i0, i1, i2) := line in
  existsb (fun c => Nat.eqb (cell_id c) i0 && negb (isEmpty c)
                    && carries cs i1 (value c) && carries cs i2 (value c)) cs.

(** The win status of the player whose mark sits on a line. *)
Definition lineOwner (cs : list Cell) (line : nat * nat * nat)
  : option GameStatus :=
  let '(i0, _, _) := line in
  if carries cs i0 X then Some X_won
  else if carries cs i0 O then Some O_won
  else None.

(** The win detector as the specification words it: the win status of the
    owner of the first line, in the fixed order, whose three cell values
    are equal and non-empty; none when no line matches. *)
Definition evaluate_spec (cs : list Cell) : option GameStatus :=
  match list_find (lineComplete cs) winConditions with
  | Some (_, line) => lineOwner cs line
  | None => None
  end.

(** A rejected click: the [try] block throws the [GameError] of the given
    kind with the pending session still equal to the rendered one, and
    [makeTurn] alerts its message. *)
Definition rejectedWith (kind : ErrKind) (s : Session) (cell : Cell) : Prop :=
  makeTurn_try s cell s = (s, inl (GameError kind))
  ∧ makeTurn s cell = (s, Some (_GAME_ERRORS kind)).

(** Every identifier of a line is carried by some cell. *)
Definition lineIn (ids : list nat) (line : nat * nat * nat) : Prop :=
  let '(i0, i1, i2) := line in i0 ∈ ids ∧ i1 ∈ ids ∧ i2 ∈ ids.

(** ** The invariant of the reachable sessions *)

(** The status the program records for a board reached after [i] moves. *)
Definition statusAt (cs : list Cell) (i : nat) : GameStatus :=
  match checkWinCondition cs with
  | Some (Some w) => w
  | _ => if Nat.eqb i 9 then Stalemate
         else if Nat.even i then X_turn else O_turn
  end.

Definition boardOk (cs : list Cell) : Prop :=
  cell_id <$> cs = seq 1 9 ∧ Forall (fun c => markOrNull (value c) = true) cs.

Record entryOk (len i : nat) (e : MoveHistoryEntry) : Prop := {
  entry_id : id e = i;
  entry_board : boardOk (entry_cells e);
  entry_count : countNonEmpty (entry_cells e) = i;
  entry_statusAt : entry_status e = statusAt (entry_cells e) i;
  entry_last : terminal (entry_status e) = true → S i = len
}.

Record Inv (s : Session) : Prop := {
  inv_current :
    ∃ e, moves s !! moveId s = Some e
         ∧ entry_cells e = cells s ∧ entry_status e = status s;
  inv_entries :
    ∀ i e, moves s !! i = Some e → entryOk (length (moves s)) i e;
  inv_flag :
    gameOver s = true ↔
    ∃ i e, moves s !! i = Some e ∧ terminal (entry_status e) = true
}.

(** ** Rendering *)

(** What [MovesHistory] renders for one entry: the React [key], the text
    in front of the button, the button's label and the record handed to
    [moveClicked], rebuilt from the destructured fields. *)
Record HistoryItem := mkHistoryItem {
  item_key : nat;
  item_number : string;
  item_label : string;
  item_clicked : MoveHistoryEntry
}.

Definition MovesHistory (ms : list MoveHistoryEntry) : list HistoryItem :=
  (fun e =>
     mkHistoryItem (id e) (pretty (id e + 1) +:+ ". ") (label e)
       (mkMove (id e) (entry_cells e) (entry_status e) (label e))) <$> ms.

(** What [Board] renders for one cell: the React [key], the value shown by
    [Cell] and the cell handed to [onCellClick]. *)
Record BoardItem := mkBoardItem {
  board_key : nat;
  board_shown : CellValue;
  board_clicked : Cell
}.

Definition Board (cs : list Cell) : list BoardItem :=
  (fun c => mkBoardItem (cell_id c) (value c) c) <$> cs.

(** ** Marks, labels and symmetry *)

(** The mark [makeTurn] writes: [status === 'X turn' ? 'X' : 'O']. *)
Definition mover (st : GameStatus) : CellValue :=
  if bool_decide (st = X_turn) then X else O.

Definition countMark (m : CellValue) (cs : list Cell) : nat :=
  length (filter (fun c => value c = m) cs).

(** The label of the entry recorded for move [i] with status [st]. *)
Definition expectedLabel (i : nat) (st : GameStatus) : string :=
  if terminal st then "Go to game over: " +:+ status_text st
  else if Nat.eqb i 0 then "Go to game start"
  else "Go to move #" +:+ pretty i.

(** The alert a click on a rendered cell produces. *)
Definition expectedAlert (s : Session) (c : Cell) : option string :=
  if bool_decide (status s = X_won) || bool_decide (status s = O_won)
  then Some (_GAME_ERRORS GAME_IS_OVER_CANNOT_MAKE_THE_MOVE)
  else if isEmpty c then
    let st := status (fst (makeTurn s c)) in
    if terminal st then Some ("Game is over! " +:+ status_text st) else None
  else Some (_GAME_ERRORS CELL_ALREADY_HAS_VALUE).

(** Exchanging the two players on a board and in a detector answer. *)
Definition swapCell (c : Cell) : Cell := mkCell (cell_id c) (opponent (value c)).

Definition swapWon (st : GameStatus) : GameStatus :=
  match st with
  | X_won => O_won
  | O_won => X_won
  | other => other
  end.

(** Labels and mark counts of the history entries. *)
Record entryMarks (i : nat) (e : MoveHistoryEntry) : Prop := {
  marks_label : label e = expectedLabel i (entry_status e);
  marks_X : countMark X (entry_cells e) = (i + 1) / 2;
  marks_O : countMark O (entry_cells e) = i / 2
}.

Definition MarksInv (s : Session) : Prop :=
  ∀ i e, moves s !! i = Some e → entryMarks i e.

(** Consecutive history entries: the later board is the earlier one with
    one empty cell marked by the player whose turn the earlier entry
    records. *)
Definition stepOk (e e' : MoveHistoryEntry) : Prop :=
  ∃ c, c ∈ entry_cells e ∧ value c = null
       ∧ terminal (entry_status e) = false
       ∧ entry_cells e' = markOne (entry_status e) (cell_id c) <$> entry_cells e.

Definition ChainInv (s : Session) : Prop :=
  ∀ i e e', moves s !! i = Some e → moves s !! S i = Some e' → stepOk e e'.

Close Scope string_scope.

(** * Properties *)

(** ** The handler monad and [makeTurn] *)

Lemma makeTurn_try_unfold s cell p :
  makeTurn_try s cell p =
    if bool_decide (status s = X_won) || bool_decide (status s = O_won)
    then (p, inl (GameError GAME_IS_OVER_CANNOT_MAKE_THE_MOVE))
    else
      match markCells (status s) (cell_id cell) (cells s) with
      | inl e => (p, inl e)
      | inr updatedCells =>
          match checkWinCondition updatedCells with
          | None => (p, inl TypeError)
          | Some won =>
              (committed s updatedCells won,
               inr (nextGameOver s won, nextStatus s won))
          end
      end.
Proof.
  unfold makeTurn_try, Handler.bind, Handler.lift, Handler.throw, Handler.ret.
  destruct (bool_decide (status s = X_won) || bool_decide (status s = O_won));
    [reflexivity|].
  destruct (markCells _ _ _) as [e|updatedCells]; [reflexivity|].
  destruct (checkWinCondition updatedCells) as [won|]; [|reflexivity].
  unfold committed, nextStatus, nextGameOver, nextLabel, otherTurn; cbn.
  destruct won as [w|]; cbn.
  - rewrite andb_false_r. reflexivity.
  - rewrite andb_true_r.
    destruct (Nat.eqb (moveId s + 1) 9); destruct (status s); reflexivity.
Qed.

(** ** [cells.map] in [makeTurn] *)

Lemma markCells_unfold st target cs :
  markCells st target cs =
    if existsb (occupied target) cs
    then inl (GameError CELL_ALREADY_HAS_VALUE)
    else inr (markOne st target <$> cs).
Proof.
  induction cs as [|c cs IH]; [reflexivity|].
  cbn [markCells existsb fmap list_fmap]. unfold occupied at 1, markOne at 1.
  destruct (Nat.eqb (cell_id c) target); cbn [andb orb].
  - destruct (truthy (value c)); cbn [orb]; [reflexivity|].
    rewrite IH. destruct (existsb _ cs); reflexivity.
  - rewrite IH. destruct (existsb _ cs); reflexivity.
Qed.

Lemma markOne_id st target c : cell_id (markOne st target c) = cell_id c.
Proof. unfold markOne. destruct (Nat.eqb _ _); reflexivity. Qed.

Lemma markOne_ids st target (cs : list Cell) :
  cell_id <$> (markOne st target <$> cs) = cell_id <$> cs.
Proof.
  rewrite <- list_fmap_compose. apply list_fmap_ext.
  intros _ c _. apply markOne_id.
Qed.

Lemma markOne_absent st target (cs : list Cell) :
  target ∉ cell_id <$> cs → markOne st target <$> cs = cs.
Proof.
  induction cs as [|c cs IH]; [reflexivity|].
  rewrite fmap_cons, not_elem_of_cons. intros [Hne Hnotin].
  cbn. rewrite (IH Hnotin). unfold markOne.
  destruct (Nat.eqb_spec (cell_id c) target); congruence.
Qed.

Lemma countNonEmpty_cons c cs :
  countNonEmpty (c :: cs) =
    (if isEmpty c then 0 else 1) + countNonEmpty cs.
Proof.
  unfold countNonEmpty. rewrite filter_cons.
  destruct (isEmpty c); case_decide; try congruence; reflexivity.
Qed.

Lemma countEmpty_cons c cs :
  countEmpty (c :: cs) = (if isEmpty c then 1 else 0) + countEmpty cs.
Proof.
  unfold countEmpty. rewrite filter_cons.
  destruct (isEmpty c); case_decide; try congruence; reflexivity.
Qed.

Lemma count_split cs : countNonEmpty cs + countEmpty cs = length cs.
Proof.
  induction cs as [|c cs IH]; [reflexivity|].
  rewrite countNonEmpty_cons, countEmpty_cons. cbn [length].
  destruct (isEmpty c); lia.
Qed.

(** Marking the one empty cell that carries the target id adds one
    non-empty cell. *)
Lemma countNonEmpty_mark st target (cs : list Cell) :
  NoDup (cell_id <$> cs) →
  (∃ c, c ∈ cs ∧ cell_id c = target ∧ value c = null) →
  countNonEmpty (markOne st target <$> cs) = S (countNonEmpty cs).
Proof.
  induction cs as [|c cs IH]; intros Hnd (c0 & Hin & Hid & Hval).
  - apply elem_of_nil in Hin as [].
  - rewrite fmap_cons in Hnd. apply NoDup_cons in Hnd as [Hhd Hnd].
    rewrite fmap_cons, !countNonEmpty_cons.
    destruct (decide (cell_id c = target)) as [Hc|Hc].
    + assert (c0 = c) as ->.
      { apply elem_of_cons in Hin as [->|Hin]; [reflexivity|].
        exfalso. apply Hhd. rewrite Hc, <- Hid. apply list_elem_of_fmap.
        eauto. }
      rewrite markOne_absent by congruence.
      unfold markOne. apply Nat.eqb_eq in Hc as ->.
      unfold isEmpty at 2. rewrite Hval. cbn.
      destruct (bool_decide (st = X_turn)); reflexivity.
    + apply elem_of_cons in Hin as [->|Hin]; [congruence|].
      rewrite IH by eauto.
      unfold markOne at 1. apply Nat.eqb_neq in Hc as ->. lia.
Qed.

Lemma markOne_markOrNull st target (cs : list Cell) :
  Forall (fun c => markOrNull (value c) = true) cs →
  Forall (fun c => markOrNull (value c) = true) (markOne st target <$> cs).
Proof.
  intros H. apply Forall_fmap. eapply Forall_impl; [exact H|].
  intros c Hc. cbn. unfold markOne.
  destruct (Nat.eqb _ _); [|exact Hc].
  destruct (bool_decide _); reflexivity.
Qed.

(** ** The win detector *)

Lemma cellValue_is_Some (cs : list Cell) i :
  i ∈ cell_id <$> cs → is_Some (cellValue cs i).
Proof.
  induction cs as [|c cs IH]; cbn.
  - intros H. apply elem_of_nil in H as [].
  - intros H. destruct (Nat.eqb_spec (cell_id c) i) as [Heq|Hne]; [eauto|].
    apply elem_of_cons in H as [H|H]; [congruence|auto].
Qed.

Lemma cellValue_elem (cs : list Cell) i v :
  cellValue cs i = Some v → ∃ c, c ∈ cs ∧ cell_id c = i ∧ value c = v.
Proof.
  induction cs as [|c cs IH]; cbn; [discriminate|].
  destruct (Nat.eqb_spec (cell_id c) i) as [Heq|Hne].
  - intros [= <-]. exists c. split; [left|auto].
  - intros H. destruct (IH H) as (c' & ? & ? & ?).
    exists c'. split; [right; assumption|auto].
Qed.

Lemma checkLines_total cs lines :
  Forall (lineIn (cell_id <$> cs)) lines → is_Some (checkLines cs lines).
Proof.
  induction 1 as [|[[i0 i1] i2] lines (H0 & H1 & H2) _ IH]; cbn; [eauto|].
  destruct (cellValue_is_Some _ _ H0) as [v0 ->].
  destruct (cellValue_is_Some _ _ H1) as [v1 ->].
  destruct (cellValue_is_Some _ _ H2) as [v2 ->]. cbn.
  repeat match goal with |- context [if ?b then _ else _] => destruct b end;
    eauto.
Qed.

Lemma checkLines_won cs lines w :
  checkLines cs lines = Some (Some w) → w = X_won ∨ w = O_won.
Proof.
  induction lines as [|[[i0 i1] i2] lines IH]; cbn; [discriminate|].
  destruct (cellValue cs i0) as [v0|]; [|discriminate].
  destruct (cellValue cs i1) as [v1|]; [|discriminate]. cbn.
  destruct (strict_eq v0 v1); [|exact IH].
  destruct (cellValue cs i2) as [v2|]; [|discriminate]. cbn.
  destruct (strict_eq v1 v2); [|exact IH].
  destruct (strict_eq v0 O); [intros [= <-]; auto|].
  destruct (strict_eq v0 X); [intros [= <-]; auto|exact IH].
Qed.

(** One iteration of the loop against the words "all three are equal and
    non-empty". *)
Lemma checkLines_cons cs i0 i1 i2 lines :
  lineIn (cell_id <$> cs) (i0, i1, i2) →
  checkLines cs ((i0, i1, i2) :: lines) =
    if holds X cs (i0, i1, i2) then Some (Some X_won)
    else if holds O cs (i0, i1, i2) then Some (Some O_won)
    else checkLines cs lines.
Proof.
  intros (H0 & H1 & H2). cbn [checkLines holds].
  destruct (cellValue_is_Some _ _ H0) as [v0 ->].
  destruct (cellValue_is_Some _ _ H1) as [v1 ->].
  destruct (cellValue_is_Some _ _ H2) as [v2 ->]. cbn.
  unfold strict_eq.
  destruct v0, v1; cbn; try reflexivity; destruct v2; cbn; try reflexivity;
    repeat case_bool_decide; simplify_eq; try reflexivity.
Qed.

Lemma checkLines_find cs lines :
  Forall (lineIn (cell_id <$> cs)) lines →
  checkLines cs lines =
    Some (match list_find (fun line => holds X cs line || holds O cs line) lines with
          | Some (_, line) => if holds X cs line then Some X_won else Some O_won
          | None => None
          end).
Proof.
  induction 1 as [|[[i0 i1] i2] lines Hin _ IH]; [reflexivity|].
  rewrite checkLines_cons by assumption. rewrite IH. clear IH.
  cbn [list_find].
  destruct (holds X cs (i0, i1, i2)) eqn:HX; cbn [orb].
  - rewrite decide_True by done. cbv beta iota. rewrite HX. reflexivity.
  - destruct (holds O cs (i0, i1, i2)) eqn:HO.
    + rewrite decide_True by done. cbv beta iota. rewrite HX. reflexivity.
    + rewrite decide_False by (intros []).
      destruct (list_find _ lines) as [[? ?]|]; reflexivity.
Qed.

Lemma wellFormed_ids cs i :
  wellFormed cs = true → 1 ≤ i ≤ 9 → i ∈ cell_id <$> cs.
Proof.
  unfold wellFormed. intros [_ H]%andb_true_iff Hi.
  rewrite forallb_forall in H.
  assert (occurrences i cs = 1) as Hocc.
  { apply Nat.eqb_eq, H, in_seq. lia. }
  unfold occurrences in Hocc.
  destruct (filter (fun c => cell_id c = i) cs) as [|c l] eqn:Hf;
    [discriminate|].
  assert (c ∈ filter (fun c => cell_id c = i) cs) as Hc by (rewrite Hf; left).
  apply list_elem_of_filter in Hc as [<- Hc].
  apply list_elem_of_fmap. eauto.
Qed.

Lemma winConditions_in cs :
  wellFormed cs = true → Forall (lineIn (cell_id <$> cs)) winConditions.
Proof.
  intros Hwf. unfold winConditions.
  repeat constructor; apply wellFormed_ids; (assumption || lia).
Qed.

Lemma boardOk_wellFormed cs : boardOk cs → wellFormed cs = true.
Proof.
  intros [Hids _]. unfold wellFormed.
  assert (length cs = 9) as Hlen.
  { rewrite <- (length_fmap cell_id), Hids. reflexivity. }
  rewrite bool_decide_eq_true_2 by assumption. cbn [andb].
  assert (∀ i, occurrences i cs = length (filter (fun j => j = i) (cell_id <$> cs)))
    as Hocc.
  { intros i. unfold occurrences. clear.
    induction cs as [|c cs IH]; [reflexivity|].
    rewrite fmap_cons, !filter_cons. cbn.
    repeat case_decide; cbn; congruence. }
  apply forallb_forall. intros i Hi. rewrite Hocc, Hids.
  apply in_seq in Hi.
  do 10 (destruct i as [|i]; [first [lia | vm_compute; reflexivity]|]). lia.
Qed.

(** ** The handlers as session transformers *)

Lemma goToMove_unfold e p :
  goToMove e p =
    (mkSession (entry_status e) (moves p) (entry_cells e) (id e) (gameOver p),
     inr tt).
Proof. reflexivity. Qed.

Lemma startNewGame_unfold p : startNewGame p = (initial, inr tt).
Proof. reflexivity. Qed.

Lemma makeTurn_session s cell : fst (makeTurn s cell) = fst (makeTurn_try s cell s).
Proof.
  unfold makeTurn.
  destruct (makeTurn_try s cell s) as [p [[kind|]|[[g|] st]]]; reflexivity.
Qed.

(** The four ways the [try] block can end. *)
Lemma makeTurn_try_cases s cell :
  let updatedCells := markOne (status s) (cell_id cell) <$> cells s in
  ((status s = X_won ∨ status s = O_won) ∧
   makeTurn_try s cell s =
     (s, inl (GameError GAME_IS_OVER_CANNOT_MAKE_THE_MOVE)))
  ∨ (status s ≠ X_won ∧ status s ≠ O_won ∧
     existsb (occupied (cell_id cell)) (cells s) = true ∧
     makeTurn_try s cell s = (s, inl (GameError CELL_ALREADY_HAS_VALUE)))
  ∨ (status s ≠ X_won ∧ status s ≠ O_won ∧
     existsb (occupied (cell_id cell)) (cells s) = false ∧
     checkWinCondition updatedCells = None ∧
     makeTurn_try s cell s = (s, inl TypeError))
  ∨ (status s ≠ X_won ∧ status s ≠ O_won ∧
     existsb (occupied (cell_id cell)) (cells s) = false ∧
     ∃ won, checkWinCondition updatedCells = Some won ∧
       makeTurn_try s cell s =
         (committed s updatedCells won,
          inr (nextGameOver s won, nextStatus s won))).
Proof.
  intros updatedCells. rewrite makeTurn_try_unfold, markCells_unfold.
  destruct (decide (status s = X_won)) as [HX|HX].
  { left. rewrite HX. auto. }
  destruct (decide (status s = O_won)) as [HO|HO].
  { left. rewrite HO. auto. }
  right. rewrite !bool_decide_eq_false_2 by assumption. cbn [orb].
  destruct (existsb _ (cells s)) eqn:Hocc; [left; auto|right].
  fold updatedCells.
  destruct (checkWinCondition updatedCells) as [won|] eqn:Hwin;
    [right; eauto 10|left; auto].
Qed.

(** ** Consequences of the invariant *)

Lemma statusAt_terminal cs i :
  terminal (statusAt cs i) = true ∨
  statusAt cs i = (if Nat.even i then X_turn else O_turn) ∧ i ≠ 9 ∧
  (checkWinCondition cs = Some None ∨ checkWinCondition cs = None).
Proof.
  unfold statusAt.
  destruct (checkWinCondition cs) as [[w|]|] eqn:Hwin.
  - left. apply checkLines_won in Hwin as [->| ->]; reflexivity.
  - destruct (Nat.eqb_spec i 9); [left; reflexivity|right; auto].
  - destruct (Nat.eqb_spec i 9); [left; reflexivity|right; auto].
Qed.

Lemma statusAt_Stalemate cs i : statusAt cs i = Stalemate → i = 9.
Proof.
  unfold statusAt.
  destruct (checkWinCondition cs) as [[w|]|] eqn:Hwin.
  - intros ->. apply checkLines_won in Hwin as [|]; discriminate.
  - destruct (Nat.eqb_spec i 9); [auto|]. destruct (Nat.even i); discriminate.
  - destruct (Nat.eqb_spec i 9); [auto|]. destruct (Nat.even i); discriminate.
Qed.

Section Invariant.
Variable s : Session.
Hypothesis HInv : Inv s.

Lemma Inv_current_entry :
  ∃ e, moves s !! moveId s = Some e ∧ entry_cells e = cells s
       ∧ entry_status e = status s ∧ entryOk (length (moves s)) (moveId s) e.
Proof.
  destruct (inv_current s HInv) as (e & Hlook & Hc & Hs).
  exists e. repeat split; try assumption.
  all: apply (inv_entries s HInv _ _ Hlook).
Qed.

Lemma Inv_board : boardOk (cells s).
Proof.
  destruct Inv_current_entry as (e & _ & <- & _ & He). apply He.
Qed.

Lemma Inv_count : countNonEmpty (cells s) = moveId s.
Proof.
  destruct Inv_current_entry as (e & _ & <- & _ & He). apply He.
Qed.

Lemma Inv_status : status s = statusAt (cells s) (moveId s).
Proof.
  destruct Inv_current_entry as (e & _ & <- & <- & He). apply He.
Qed.

Lemma Inv_moveId : moveId s < length (moves s).
Proof.
  destruct Inv_current_entry as (e & Hlook & _).
  apply lookup_lt_Some in Hlook. exact Hlook.
Qed.

Lemma Inv_NoDup : NoDup (cell_id <$> cells s).
Proof.
  destruct Inv_board as [-> _]. apply NoDup_seq.
Qed.

Lemma Inv_length : length (cells s) = 9.
Proof.
  destruct Inv_board as [Hids _].
  rewrite <- (length_fmap cell_id), Hids. reflexivity.
Qed.

End Invariant.

(** ** Clicking a cell of a board in play *)

Lemma not_occupied_null cs c :
  boardOk cs → c ∈ cs →
  existsb (occupied (cell_id c)) cs = false → value c = null.
Proof.
  intros [_ Hval] Hin Hocc.
  rewrite Forall_forall in Hval. specialize (Hval c Hin).
  assert (occupied (cell_id c) c = false) as Hc.
  { destruct (occupied (cell_id c) c) eqn:E; [|reflexivity].
    rewrite <- Hocc. symmetry. apply existsb_exists.
    exists c. split; [apply list_elem_of_In; exact Hin|exact E]. }
  unfold occupied in Hc. rewrite Nat.eqb_refl in Hc. cbn in Hc.
  destruct (value c); cbn in *; congruence.
Qed.

Lemma full_no_null cs c :
  countNonEmpty cs = length cs → c ∈ cs → value c ≠ null.
Proof.
  intros Hfull Hin Hnull.
  pose proof (count_split cs) as Hsplit.
  assert (countEmpty cs = 0) as Hzero by lia.
  unfold countEmpty in Hzero. apply nil_length_inv in Hzero.
  assert (c ∈ filter (fun c => isEmpty c = true) cs) as Hc.
  { apply list_elem_of_filter. split; [|exact Hin].
    unfold isEmpty. apply bool_decide_eq_true_2. exact Hnull. }
  rewrite Hzero in Hc. apply elem_of_nil in Hc as [].
Qed.

Section AcceptedMove.
Variables (s : Session) (cell : Cell) (updatedCells : list Cell).
Hypothesis HInv : Inv s.
Hypothesis Hcell : cell ∈ cells s.
Hypothesis Hfree : existsb (occupied (cell_id cell)) (cells s) = false.
Hypothesis HX : status s ≠ X_won.
Hypothesis HO : status s ≠ O_won.

Hypothesis Hupd :
  updatedCells = markOne (status s) (cell_id cell) <$> cells s.

Lemma accepted_null : value cell = null.
Proof. apply (not_occupied_null (cells s)); auto using Inv_board. Qed.

(** A move is only ever accepted on somebody's turn: a stalemate board
    has no free cell left. *)
Lemma accepted_turn :
  status s = (if Nat.even (moveId s) then X_turn else O_turn)
  ∧ moveId s < 9.
Proof using HInv Hcell Hfree HX HO.
  clear Hupd.
  pose proof (Inv_status s HInv) as Hst.
  pose proof (Inv_count s HInv) as Hcount.
  pose proof (Inv_length s HInv) as Hlen.
  assert (moveId s ≠ 9) as Hne.
  { intros H9. apply (full_no_null (cells s) cell); [lia|exact Hcell|].
    exact accepted_null. }
  assert (moveId s < 9).
  { pose proof (count_split (cells s)). lia. }
  split; [|assumption].
  destruct (statusAt_terminal (cells s) (moveId s)) as [Hterm|(Heq & _)];
    [|congruence].
  rewrite <- Hst in Hterm.
  destruct (status s) eqn:E; try discriminate; try congruence.
  symmetry in Hst. apply statusAt_Stalemate in Hst. congruence.
Qed.

Lemma accepted_board : boardOk updatedCells.
Proof.
  destruct (Inv_board s HInv) as [Hids Hval]. split.
  - rewrite Hupd, markOne_ids. exact Hids.
  - rewrite Hupd. apply markOne_markOrNull. exact Hval.
Qed.

Lemma accepted_count : countNonEmpty updatedCells = S (moveId s).
Proof.
  rewrite Hupd, countNonEmpty_mark.
  - rewrite (Inv_count s HInv). reflexivity.
  - apply Inv_NoDup. exact HInv.
  - exists cell. auto using accepted_null.
Qed.

Lemma accepted_total : is_Some (checkWinCondition updatedCells).
Proof.
  apply checkLines_total, winConditions_in, boardOk_wellFormed.
  exact accepted_board.
Qed.

Lemma accepted_statusAt won :
  checkWinCondition updatedCells = Some won →
  nextStatus s won = statusAt updatedCells (moveId s + 1).
Proof.
  intros Hwin. unfold nextStatus, statusAt. rewrite Hwin.
  destruct won as [w|]; [reflexivity|].
  destruct (Nat.eqb (moveId s + 1) 9); [reflexivity|].
  destruct accepted_turn as [-> _].
  rewrite Nat.add_1_r, Nat.even_succ, <- Nat.negb_even.
  destruct (Nat.even (moveId s)); reflexivity.
Qed.

(** The entries an accepted move keeps are all non-terminal. *)
Lemma accepted_kept i e :
  i < moveId s + 1 → moves s !! i = Some e → terminal (entry_status e) = false.
Proof using HInv Hcell Hfree HX HO.
  clear Hupd.
  intros Hi Hlook. apply not_true_is_false. intros Hterm.
  pose proof (Inv_moveId s HInv) as Hlt.
  destruct (decide (i = moveId s)) as [->|Hne].
  - destruct (inv_current s HInv) as (e' & Hlook' & _ & Hs).
    assert (e' = e) as -> by congruence.
    destruct accepted_turn as [Hturn _].
    rewrite Hs, Hturn in Hterm. destruct (Nat.even _); discriminate.
  - pose proof (entry_last _ _ _ (inv_entries s HInv i e Hlook) Hterm). lia.
Qed.

Lemma accepted_flag won :
  checkWinCondition updatedCells = Some won →
  bool_decide (is_Some (nextGameOver s won)) = terminal (nextStatus s won).
Proof.
  intros Hwin. unfold nextGameOver, nextStatus.
  destruct won as [w|].
  - apply checkLines_won in Hwin as [->| ->]; reflexivity.
  - destruct (Nat.eqb (moveId s + 1) 9); [reflexivity|].
    destruct (status s); reflexivity.
Qed.

Lemma accepted_Inv won :
  checkWinCondition updatedCells = Some won →
  Inv (committed s updatedCells won).
Proof.
  intros Hwin.
  pose proof (Inv_moveId s HInv) as Hlt.
  assert (length (take (moveId s + 1) (moves s)) = moveId s + 1) as Htake.
  { rewrite length_take. lia. }
  assert (∀ i e,
    (take (moveId s + 1) (moves s)
       ++ [createMove (moveId s + 1) updatedCells (nextStatus s won)
             (nextLabel s won)]) !! i = Some e →
    i < moveId s + 1 ∧ moves s !! i = Some e
    ∨ i = moveId s + 1
      ∧ e = createMove (moveId s + 1) updatedCells (nextStatus s won)
              (nextLabel s won)) as Hsplit.
  { intros i e Hlook. destruct (decide (i < moveId s + 1)) as [Hi|Hi].
    - left. rewrite lookup_app_l in Hlook by lia.
      rewrite lookup_take_lt in Hlook by lia. auto.
    - right. rewrite lookup_app_r in Hlook by lia. rewrite Htake in Hlook.
      destruct (i - (moveId s + 1)) as [|n] eqn:Hd; [|discriminate].
      injection Hlook as <-. split; [lia|reflexivity]. }
  split; cbn [committed moves moveId cells status gameOver].
  - exists (createMove (moveId s + 1) updatedCells (nextStatus s won)
              (nextLabel s won)).
    split; [|split; reflexivity].
    rewrite lookup_app_r by lia. rewrite Htake, Nat.sub_diag. reflexivity.
  - intros i e Hlook. rewrite length_app, Htake. cbn [length].
    destruct (Hsplit i e Hlook) as [[Hi Hold]|[-> ->]].
    + destruct (inv_entries s HInv i e Hold) as [H1 H2 H3 H4 H5].
      split; try assumption.
      rewrite (accepted_kept i e Hi Hold). discriminate.
    + split; cbn [createMove id entry_cells entry_status].
      * reflexivity.
      * exact accepted_board.
      * rewrite accepted_count. lia.
      * apply accepted_statusAt. exact Hwin.
      * lia.
  - rewrite (accepted_flag won Hwin). split.
    + intros Hterm.
      exists (moveId s + 1),
        (createMove (moveId s + 1) updatedCells (nextStatus s won)
           (nextLabel s won)).
      split; [|exact Hterm].
      rewrite lookup_app_r by lia. rewrite Htake, Nat.sub_diag. reflexivity.
    + intros (i & e & Hlook & Hterm).
      destruct (Hsplit i e Hlook) as [[Hi Hold]|[-> ->]]; [|exact Hterm].
      rewrite (accepted_kept i e Hi Hold) in Hterm. discriminate.
Qed.

End AcceptedMove.

(** ** The invariant holds in every reachable session *)

Lemma Inv_initial : Inv initial.
Proof.
  split.
  - eexists. split; [reflexivity|]. split; reflexivity.
  - intros [|i] e Hlook; [|discriminate]. injection Hlook as <-.
    split; [reflexivity| |reflexivity|reflexivity|cbn; discriminate].
    split; [reflexivity|]. unfold createMove, createCells. cbn.
    repeat constructor.
  - split; [discriminate|].
    intros ([|i] & e & Hlook & Hterm); [|discriminate].
    injection Hlook as <-. discriminate.
Qed.

Lemma Inv_goToMove s e : Inv s → e ∈ moves s → Inv (fst (goToMove e s)).
Proof.
  intros HInv Hin. rewrite goToMove_unfold. cbn [fst].
  apply list_elem_of_lookup in Hin as [i Hlook].
  pose proof (inv_entries s HInv i e Hlook) as He.
  split; cbn [moves moveId cells status].
  - exists e. rewrite (entry_id _ _ _ He). auto.
  - apply (inv_entries s HInv).
  - apply (inv_flag s HInv).
Qed.

Lemma Inv_makeTurn s cell : Inv s → cell ∈ cells s → Inv (fst (makeTurn s cell)).
Proof.
  intros HInv Hin. rewrite makeTurn_session.
  destruct (makeTurn_try_cases s cell)
    as [(_ & ->)|[(_ & _ & _ & ->)|[(_ & _ & _ & _ & ->)|
        (HX & HO & Hfree & won & Hwin & ->)]]]; try exact HInv.
  cbn [fst]. eapply accepted_Inv; eauto.
Qed.

Lemma Inv_dispatch s i : Inv s → offered s i → Inv (dispatch s i).
Proof.
  destruct i as [c|e|]; cbn [offered dispatch]; intros HInv Hoff.
  - apply Inv_makeTurn; assumption.
  - apply Inv_goToMove; assumption.
  - rewrite startNewGame_unfold. exact Inv_initial.
Qed.

Lemma reachable_Inv s : reachable s → Inv s.
Proof.
  induction 1 as [|s i _ IH Hoff]; [exact Inv_initial|].
  apply Inv_dispatch; assumption.
Qed.

(** ** Scenarios *)

Lemma cellAt_elem s n c : cellAt s n = Some c → c ∈ cells s ∧ cell_id c = n.
Proof.
  unfold cellAt. intros H.
  destruct (list_find _ (cells s)) as [[i c']|] eqn:Hfind; [|discriminate].
  injection H as ->. apply list_find_Some in Hfind as (Hlook & Hid & _).
  split; [|exact Hid]. apply list_elem_of_lookup. eauto.
Qed.

Lemma click_reachable n s : reachable s → reachable (click n s).
Proof.
  intros Hs. unfold click. destruct (cellAt s n) as [c|] eqn:Hc; [|exact Hs].
  apply reachable_step; [exact Hs|]. apply cellAt_elem in Hc as [Hc _].
  exact Hc.
Qed.

Lemma clicks_reachable ns s : reachable s → reachable (clicks ns s).
Proof.
  revert s. induction ns as [|n ns IH]; intros s Hs; [exact Hs|].
  apply IH, click_reachable, Hs.
Qed.

(** ** Rejected moves *)

Lemma won_rejected s cell :
  status s = X_won ∨ status s = O_won →
  makeTurn_try s cell s =
    (s, inl (GameError GAME_IS_OVER_CANNOT_MAKE_THE_MOVE)).
Proof.
  intros Hwon.
  destruct (makeTurn_try_cases s cell)
    as [(_ & H)|[(HX & HO & _)|[(HX & HO & _)|(HX & HO & _)]]];
    [exact H|destruct Hwon; contradiction..].
Qed.

Lemma occupied_rejected s cell :
  status s ≠ X_won → status s ≠ O_won →
  existsb (occupied (cell_id cell)) (cells s) = true →
  makeTurn_try s cell s = (s, inl (GameError CELL_ALREADY_HAS_VALUE)).
Proof.
  intros HX HO Hocc.
  destruct (makeTurn_try_cases s cell)
    as [([?|?] & _)|[(_ & _ & _ & H)|[(_ & _ & Hfree & _)|(_ & _ & Hfree & _)]]];
    try contradiction; [exact H|congruence..].
Qed.

(** On a reachable stalemate session every rendered cell is taken, so the
    click is answered by the check of the cell, not by the game-over check. *)
Lemma stalemate_rejected s cell :
  reachable s → status s = Stalemate → cell ∈ cells s →
  makeTurn_try s cell s = (s, inl (GameError CELL_ALREADY_HAS_VALUE)).
Proof.
  intros Hs Hst Hin. apply reachable_Inv in Hs as HInv.
  apply occupied_rejected; try (rewrite Hst; discriminate).
  destruct (existsb _ (cells s)) eqn:Hfree; [reflexivity|exfalso].
  destruct (accepted_turn s cell HInv Hin Hfree) as [Hturn _];
    try (rewrite Hst; discriminate).
  rewrite Hst in Hturn. destruct (Nat.even _); discriminate.
Qed.

(** ** Accepted moves *)

Lemma accepted_committed s cell r :
  snd (makeTurn_try s cell s) = inr r →
  let updatedCells := markOne (status s) (cell_id cell) <$> cells s in
  ∃ won,
    status s ≠ X_won ∧ status s ≠ O_won ∧
    existsb (occupied (cell_id cell)) (cells s) = false ∧
    checkWinCondition updatedCells = Some won ∧
    fst (makeTurn s cell) = committed s updatedCells won ∧
    r = (nextGameOver s won, nextStatus s won).
Proof.
  intros Hr updatedCells. rewrite makeTurn_session.
  destruct (makeTurn_try_cases s cell)
    as [(_ & H)|[(_ & _ & _ & H)|[(_ & _ & _ & _ & H)|
        (HX & HO & Hfree & won & Hwin & H)]]];
    rewrite H in Hr |- *; cbn [fst snd] in *; try discriminate.
  exists won. injection Hr as <-. auto 10.
Qed.

Lemma rejected_unchanged s cell e :
  snd (makeTurn_try s cell s) = inl e → fst (makeTurn s cell) = s.
Proof.
  intros He. rewrite makeTurn_session.
  destruct (makeTurn_try_cases s cell)
    as [(_ & H)|[(_ & _ & _ & H)|[(_ & _ & _ & _ & H)|
        (_ & _ & _ & won & _ & H)]]];
    rewrite H in He |- *; cbn [fst snd] in *; [reflexivity..|discriminate].
Qed.

Lemma Inv_snapshot s : Inv s → snapshotAtIndex s = true.
Proof.
  intros HInv. destruct (inv_current s HInv) as (e & Hlook & Hc & Hs).
  unfold snapshotAtIndex. rewrite Hlook.
  rewrite !bool_decide_eq_true_2 by assumption. reflexivity.
Qed.

(** C1 (fails for the draw): the specification has every terminal status,
    the draw included, answered with the game-over error.  The guard of
    [makeTurn] tests ['X won'] and ['O won'] only; on the drawn session
    every click reaches the cell check and is rejected as
    [CELL_ALREADY_HAS_VALUE].  The session is left as it was. *)
Theorem C1_draw_click_reports_occupied_cell :
  reachable drawn ∧ status drawn = Stalemate ∧ gameOver drawn = true ∧
  terminal (status drawn) = true ∧
  Forall (fun c =>
    makeTurn_try drawn c drawn =
      (drawn, inl (GameError CELL_ALREADY_HAS_VALUE)) ∧
    makeTurn drawn c = (drawn, Some (_GAME_ERRORS CELL_ALREADY_HAS_VALUE)))
    (cells drawn).
Proof.
  assert (reachable drawn) as Hr
    by (apply clicks_reachable, reachable_initial).
  assert (status drawn = Stalemate) as Hst by (vm_compute; reflexivity).
  split; [exact Hr|]. split; [exact Hst|].
  split; [vm_compute; reflexivity|]. split; [vm_compute; reflexivity|].
  apply Forall_forall. intros c Hc.
  pose proof (stalemate_rejected drawn c Hr Hst Hc) as Hrej.
  split; [exact Hrej|]. unfold makeTurn. rewrite Hrej. reflexivity.
Qed.

(** C2: after every transition of a reachable session (a click on a cell,
    accepted or not, the selection of a history entry, a new game) the
    current board and status equal the snapshot stored in the history
    entry at the current move index. *)
Theorem C2_current_equals_snapshot s i :
  reachable s → offered s i → snapshotAtIndex (dispatch s i) = true.
Proof.
  intros Hs Hoff. apply Inv_snapshot, Inv_dispatch; [|exact Hoff].
  apply reachable_Inv, Hs.
Qed.

Lemma C2_current_equals_snapshot_witness :
  reachable initial ∧ offered initial (cellClicked (mkCell 1 null)) ∧
  snapshotAtIndex (dispatch initial (cellClicked (mkCell 1 null))) = true.
Proof.
  assert (reachable initial) as H1 by constructor.
  assert (offered initial (cellClicked (mkCell 1 null))) as H2 by (cbn; left).
  exact (conj H1 (conj H2 (C2_current_equals_snapshot _ _ H1 H2))).
Defined.

(** C3: an accepted move made from move index [k] keeps the entries
    [0 .. k] of the history, appends exactly one entry with sequence number
    [k + 1] that holds the new board and the new status, and sets the move
    index to [k + 1]; nothing recorded beyond [k] survives, and the next
    accepted move produces index [k + 2]. *)
Theorem C3_truncate_then_append s cell r :
  reachable s →
  snd (makeTurn_try s cell s) = inr r →
  let k := moveId s in
  let s' := fst (makeTurn s cell) in
  (∃ e', moves s' = take (k + 1) (moves s) ++ [e'] ∧ id e' = k + 1
         ∧ entry_cells e' = cells s' ∧ entry_status e' = status s')
  ∧ length (take (k + 1) (moves s)) = k + 1
  ∧ (∀ i, i ≤ k → moves s' !! i = moves s !! i)
  ∧ moveId s' = k + 1
  ∧ length (moves s') = k + 2
  ∧ (∀ i e, moves s' !! i = Some e → id e = i ∧ i ≤ k + 1)
  ∧ (∀ cell' r', snd (makeTurn_try s' cell' s') = inr r' →
       moveId (fst (makeTurn s' cell')) = k + 2).
Proof.
  intros Hs Hr k s'.
  pose proof (reachable_Inv s Hs) as HInv.
  pose proof (Inv_moveId s HInv) as Hlt. fold k in Hlt.
  destruct (accepted_committed s cell r Hr)
    as (won & HX & HO & Hfree & Hwin & Hs' & _).
  assert (length (take (k + 1) (moves s)) = k + 1) as Htake.
  { rewrite length_take. lia. }
  assert (length (moves s') = k + 2) as Hlen.
  { unfold s'. rewrite Hs'. cbn [committed moves]. fold k.
    rewrite length_app, Htake. cbn [length]. lia. }
  split; [|split; [exact Htake|split; [|split; [|split; [exact Hlen|split]]]]].
  - unfold s'. rewrite Hs'. cbn [committed moves cells status]. fold k.
    eexists. split; [reflexivity|]. split; [reflexivity|].
    split; reflexivity.
  - intros i Hi. unfold s'. rewrite Hs'. cbn [committed moves]. fold k.
    rewrite lookup_app_l by lia. apply lookup_take_lt. lia.
  - unfold s'. rewrite Hs'. reflexivity.
  - intros i e Hlook.
    pose proof (lookup_lt_Some _ _ _ Hlook) as Hi.
    split; [|lia]. revert Hlook.
    unfold s'. rewrite Hs'. cbn [committed moves]. fold k. intros Hlook.
    destruct (decide (i < k + 1)) as [Hik|Hik].
    + rewrite lookup_app_l, lookup_take_lt in Hlook by lia.
      apply (inv_entries s HInv i e Hlook).
    + rewrite lookup_app_r, Htake in Hlook by lia.
      assert (i = k + 1) as -> by lia.
      rewrite Nat.sub_diag in Hlook. injection Hlook as <-. reflexivity.
  - intros cell' r' Hr'.
    destruct (accepted_committed s' cell' r' Hr') as (won' & _ & _ & _ & _ & -> & _).
    cbn [committed moveId]. unfold s'. rewrite Hs'. cbn [committed moveId].
    fold k. lia.
Qed.

Lemma C3_truncate_then_append_witness :
  reachable (fst (goToMove (createMove 0 createCells X_turn None) xWins))
  ∧ length (moves xWins) = 6
  ∧ length (moves (fst (makeTurn
      (fst (goToMove (createMove 0 createCells X_turn None) xWins))
      (mkCell 5 null)))) = 2
  ∧ moveId (fst (makeTurn
      (fst (goToMove (createMove 0 createCells X_turn None) xWins))
      (mkCell 5 null))) = 1.
Proof.
  assert (reachable (fst (goToMove (createMove 0 createCells X_turn None) xWins)))
    as Hs.
  { apply (reachable_step xWins (historyEntryClicked _)).
    - apply clicks_reachable, reachable_initial.
    - vm_compute. left. }
  assert (snd (makeTurn_try
                 (fst (goToMove (createMove 0 createCells X_turn None) xWins))
                 (mkCell 5 null)
                 (fst (goToMove (createMove 0 createCells X_turn None) xWins)))
          = inr (None, O_turn)) as Hr
    by (vm_compute; reflexivity).
  pose proof (C3_truncate_then_append _ (mkCell 5 null) _ Hs Hr)
    as (_ & _ & _ & Hid & Hlen & _).
  split; [exact Hs|]. split; [vm_compute; reflexivity|].
  split; [exact Hlen|exact Hid].
Defined.

(** C4: on every accepted move the new status follows this order of cases:
    the win status the detector reports on the new board; else the draw
    when the move is the ninth (all cells filled); else the turn of the
    other player. *)
Theorem C4_status_case_order s cell r :
  reachable s → cell ∈ cells s →
  snd (makeTurn_try s cell s) = inr r →
  let s' := fst (makeTurn s cell) in
  (status s = X_turn ∨ status s = O_turn)
  ∧ moveId s' = moveId s + 1
  ∧ (moveId s' = 9 ↔ countEmpty (cells s') = 0)
  ∧ ∃ won,
      checkWinCondition (cells s') = Some won
      ∧ (won = None ∨ won = Some X_won ∨ won = Some O_won)
      ∧ status s' =
          match won with
          | Some w => w
          | None => if Nat.eqb (moveId s') 9 then Stalemate
                    else otherTurn (status s)
          end.
Proof.
  intros Hs Hin Hr s'.
  pose proof (reachable_Inv s Hs) as HInv.
  destruct (accepted_committed s cell r Hr)
    as (won & HX & HO & Hfree & Hwin & Hs' & _).
  destruct (accepted_turn s cell HInv Hin Hfree HX HO) as [Hturn _].
  assert (Inv s') as HInv'.
  { unfold s'. rewrite Hs'. eapply accepted_Inv; eauto. }
  split; [rewrite Hturn; destruct (Nat.even _); auto|].
  split; [unfold s'; rewrite Hs'; reflexivity|].
  split.
  - pose proof (count_split (cells s')) as Hsplit.
    rewrite (Inv_count s' HInv'), (Inv_length s' HInv') in Hsplit. lia.
  - exists won. unfold s'. rewrite Hs'. cbn [committed cells status moveId].
    split; [exact Hwin|]. split; [|reflexivity].
    destruct won as [w|]; [|auto].
    apply checkLines_won in Hwin as [->| ->]; auto.
Qed.

Lemma C4_status_case_order_witness :
  reachable (clicks [1; 2; 4; 3] initial)
  ∧ status (clicks [1; 2; 4; 3] initial) = X_turn
  ∧ status (fst (makeTurn (clicks [1; 2; 4; 3] initial) (mkCell 7 null)))
    = X_won.
Proof.
  assert (reachable (clicks [1; 2; 4; 3] initial)) as Hs
    by (apply clicks_reachable, reachable_initial).
  assert (mkCell 7 null ∈ cells (clicks [1; 2; 4; 3] initial)) as Hin
    by (vm_compute; do 6 right; left).
  assert (snd (makeTurn_try (clicks [1; 2; 4; 3] initial) (mkCell 7 null)
                 (clicks [1; 2; 4; 3] initial))
          = inr (Some X_won, X_won)) as Hr
    by (vm_compute; reflexivity).
  pose proof (C4_status_case_order _ (mkCell 7 null) _ Hs Hin Hr)
    as (_ & _ & _ & won & Hwin & _ & Hst).
  split; [exact Hs|]. split; [vm_compute; reflexivity|].
  assert (won = Some X_won) as -> by (vm_compute in Hwin; congruence).
  exact Hst.
Defined.

(** ** The win detector against the specification *)

Lemma cellValue_markOrNull cs i v :
  Forall (fun c => markOrNull (value c) = true) cs →
  cellValue cs i = Some v → markOrNull v = true.
Proof.
  intros Hval Hv. apply cellValue_elem in Hv as (c & Hin & _ & <-).
  rewrite Forall_forall in Hval. auto.
Qed.

Lemma occurrences_unique (cs : list Cell) i c c' :
  occurrences i cs = 1 → c ∈ cs → c' ∈ cs →
  cell_id c = i → cell_id c' = i → c = c'.
Proof.
  unfold occurrences. intros Hocc Hc Hc' Hid Hid'.
  destruct (filter (fun c => cell_id c = i) cs) as [|c0 [|c1 l]] eqn:Hf;
    try discriminate.
  assert (∀ x, x ∈ cs → cell_id x = i → x = c0) as Hall.
  { intros x Hx Hxi.
    assert (x ∈ filter (fun c => cell_id c = i) cs) as Hin
      by (apply list_elem_of_filter; auto).
    rewrite Hf in Hin. apply list_elem_of_singleton in Hin. exact Hin. }
  rewrite (Hall c Hc Hid), (Hall c' Hc' Hid'). reflexivity.
Qed.

Lemma carries_elem (cs : list Cell) i v :
  carries cs i v = true ↔ ∃ c, c ∈ cs ∧ cell_id c = i ∧ value c = v.
Proof.
  unfold carries. rewrite existsb_exists. split.
  - intros (c & Hin & [Hid Hv]%andb_true_iff). exists c.
    apply list_elem_of_In in Hin. apply Nat.eqb_eq in Hid.
    apply bool_decide_eq_true_1 in Hv. auto.
  - intros (c & Hin & Hid & Hv). exists c.
    split; [apply list_elem_of_In; exact Hin|].
    rewrite (proj2 (Nat.eqb_eq _ _) Hid), bool_decide_eq_true_2 by exact Hv.
    reflexivity.
Qed.

(** On a board that carries an identifier once, the detector's lookup and
    the cell-by-cell reading agree. *)
Lemma carries_cellValue (cs : list Cell) i v :
  occurrences i cs = 1 →
  (carries cs i v = true ↔ cellValue cs i = Some v).
Proof.
  intros Hocc. rewrite carries_elem. split.
  - intros (c & Hin & Hid & Hv).
    destruct (cellValue_is_Some cs i) as [v' Hv'].
    { apply list_elem_of_fmap. eauto. }
    destruct (cellValue_elem cs i v' Hv') as (c' & Hin' & Hid' & Hval').
    rewrite (occurrences_unique cs i c c' Hocc Hin Hin' Hid Hid') in Hv.
    congruence.
  - apply cellValue_elem.
Qed.

Lemma wellFormed_occurrences cs i :
  wellFormed cs = true → 1 ≤ i ≤ 9 → occurrences i cs = 1.
Proof.
  unfold wellFormed. intros [_ H]%andb_true_iff Hi.
  rewrite forallb_forall in H. apply Nat.eqb_eq, H, in_seq. lia.
Qed.

Lemma winConditions_range :
  Forall (fun line : nat * nat * nat =>
            1 ≤ line.1.1 ≤ 9 ∧ 1 ≤ line.1.2 ≤ 9 ∧ 1 ≤ line.2 ≤ 9)
    winConditions.
Proof. unfold winConditions. repeat constructor; cbn; lia. Qed.

Lemma lineHeld_holds cs line m :
  wellFormed cs = true → line ∈ winConditions →
  lineHeld m cs line = holds m cs line.
Proof.
  intros Hwf Hline.
  pose proof (proj1 (Forall_forall _ _) winConditions_range line Hline)
    as (H0 & H1 & H2).
  destruct line as [[i0 i1] i2]. cbn [fst snd] in *. unfold lineHeld, holds.
  assert (∀ i, 1 ≤ i ≤ 9 →
            carries cs i m = bool_decide (cellValue cs i = Some m)) as Heq.
  { intros i Hi. apply Bool.eq_iff_eq_true.
    rewrite bool_decide_eq_true.
    apply carries_cellValue, wellFormed_occurrences; assumption. }
  rewrite !Heq by assumption. reflexivity.
Qed.

Lemma lineComplete_holds cs line :
  wellFormed cs = true →
  Forall (fun c => markOrNull (value c) = true) cs →
  line ∈ winConditions →
  lineComplete cs line = holds X cs line || holds O cs line.
Proof.
  intros Hwf Hval Hline.
  rewrite <- !(lineHeld_holds cs line) by assumption.
  pose proof (proj1 (Forall_forall _ _) winConditions_range line Hline)
    as (H0 & _).
  destruct line as [[i0 i1] i2]. cbn [fst snd] in H0.
  unfold lineComplete, lineHeld. clear H0 Hline Hwf.
  apply Bool.eq_iff_eq_true. rewrite existsb_exists, orb_true_iff. split.
  - intros (c & Hin & Hc). apply list_elem_of_In in Hin.
    apply andb_true_iff in Hc as [Hc H2].
    apply andb_true_iff in Hc as [Hc H1].
    apply andb_true_iff in Hc as [Hid Hne]. apply Nat.eqb_eq in Hid.
    assert (carries cs i0 (value c) = true) as H0
      by (apply carries_elem; eauto).
    rewrite Forall_forall in Hval. specialize (Hval c Hin).
    unfold isEmpty in Hne.
    destruct (value c); try discriminate; [left|right];
      rewrite H0, H1, H2; reflexivity.
  - assert (∀ m, m ≠ null →
        carries cs i0 m && carries cs i1 m && carries cs i2 m = true →
        ∃ c, In c cs ∧
          (cell_id c =? i0) && negb (isEmpty c) && carries cs i1 (value c)
          && carries cs i2 (value c) = true) as Hm.
    { intros m Hm H.
      apply andb_true_iff in H as [H H2]. apply andb_true_iff in H as [H0 H1].
      apply carries_elem in H0 as (c & Hin & Hid & Hv). exists c.
      split; [apply list_elem_of_In; exact Hin|].
      unfold isEmpty. rewrite Hv, H1, H2.
      rewrite (proj2 (Nat.eqb_eq _ _) Hid).
      rewrite bool_decide_eq_false_2 by exact Hm. reflexivity. }
    intros [H|H]; eapply Hm; eauto; discriminate.
Qed.

Lemma lineOwner_holds cs line :
  wellFormed cs = true → line ∈ winConditions →
  holds X cs line || holds O cs line = true →
  lineOwner cs line = if holds X cs line then Some X_won else Some O_won.
Proof.
  intros Hwf Hline Hsome.
  rewrite <- !(lineHeld_holds cs line) in * by assumption.
  pose proof (proj1 (Forall_forall _ _) winConditions_range line Hline)
    as (H0 & _).
  pose proof (wellFormed_occurrences cs _ Hwf H0) as Hocc.
  destruct line as [[i0 i1] i2]. cbn [fst snd] in Hocc.
  unfold lineOwner, lineHeld in *.
  assert (carries cs i0 X = true → carries cs i0 O = true → False) as Hexcl.
  { intros HX HO. apply (carries_cellValue cs i0 _ Hocc) in HX, HO.
    congruence. }
  destruct (carries cs i0 X), (carries cs i0 O), (carries cs i1 X),
    (carries cs i2 X); cbn in *; try reflexivity; try discriminate;
    exfalso; auto.
Qed.

Lemma list_find_Forall_ext {A} (P Q : A → Prop)
    `{∀ x, Decision (P x)} `{∀ x, Decision (Q x)} (l : list A) :
  Forall (fun x => P x ↔ Q x) l → list_find P l = list_find Q l.
Proof.
  induction 1 as [|x l Hx _ IH]; [reflexivity|].
  cbn [list_find]. rewrite IH.
  destruct (decide (P x)), (decide (Q x)); tauto || reflexivity.
Qed.

Lemma checkWinCondition_evaluate cs :
  wellFormed cs = true →
  Forall (fun c => markOrNull (value c) = true) cs →
  checkWinCondition cs = Some (evaluate_spec cs).
Proof.
  intros Hwf Hval. unfold checkWinCondition, evaluate_spec.
  rewrite checkLines_find by (apply winConditions_in; exact Hwf). f_equal.
  rewrite (list_find_Forall_ext (lineComplete cs)
             (fun line => holds X cs line || holds O cs line) winConditions).
  2:{ apply Forall_forall. intros line Hline.
      rewrite lineComplete_holds by assumption. reflexivity. }
  destruct (list_find _ winConditions) as [[j line]|] eqn:Hfind;
    [|reflexivity].
  apply list_find_Some in Hfind as (Hlook & Hline & _).
  symmetry. apply lineOwner_holds; [exact Hwf| |].
  - apply list_elem_of_lookup. eauto.
  - apply Is_true_true. exact Hline.
Qed.

Lemma holds_checkWinCondition cs line m :
  wellFormed cs = true →
  line ∈ winConditions → m = X ∨ m = O →
  holds m cs line = true →
  (∀ l', l' ∈ winConditions → holds (opponent m) cs l' = false) →
  checkWinCondition cs = Some (wonBy m).
Proof.
  intros Hwf Hline Hm Hholds Hopp. unfold checkWinCondition.
  rewrite checkLines_find by (apply winConditions_in; exact Hwf). f_equal.
  destruct (list_find _ winConditions) as [[j l1]|] eqn:Hfind.
  - apply list_find_Some in Hfind as (Hlook & Hl1 & _).
    assert (l1 ∈ winConditions) as Hin1
      by (apply list_elem_of_lookup; eauto).
    specialize (Hopp l1 Hin1).
    destruct Hm as [-> | ->]; cbn [opponent] in Hopp.
    + rewrite Hopp, orb_false_r in Hl1.
      destruct (holds X cs l1); [reflexivity|contradiction].
    + rewrite Hopp. reflexivity.
  - exfalso. apply list_find_None in Hfind.
    rewrite Forall_forall in Hfind. apply (Hfind line Hline).
    destruct Hm as [-> | ->]; rewrite Hholds; [|rewrite orb_true_r]; exact I.
Qed.

(** C5: the detector walks the eight lines in the order rows, columns,
    diagonals and answers with the win status of the owner of the first
    line whose three cell values are equal and non-empty, none when there
    is no such line; a board on which one player's mark sits in the three
    cells of a line and the other player completes none evaluates to that
    player's win.  The lines are read off the cells of the board
    ([carries]), not through the detector's own lookup. *)
Theorem C5_win_detector cs :
  wellFormed cs = true →
  Forall (fun c => markOrNull (value c) = true) cs →
  winConditions = rows ++ columns ++ diagonals
  ∧ length winConditions = 8
  ∧ checkWinCondition cs = Some (evaluate_spec cs)
  ∧ (∀ line m,
       line ∈ winConditions → m = X ∨ m = O →
       lineHeld m cs line = true →
       (∀ l', l' ∈ winConditions → lineHeld (opponent m) cs l' = false) →
       checkWinCondition cs = Some (wonBy m)).
Proof.
  intros Hwf Hval.
  split; [reflexivity|]. split; [reflexivity|].
  split; [apply checkWinCondition_evaluate; assumption|].
  intros line m Hline Hm Hheld Hopp.
  apply (holds_checkWinCondition cs line m Hwf Hline Hm).
  - rewrite <- lineHeld_holds by assumption. exact Hheld.
  - intros l' Hl'. rewrite <- lineHeld_holds by assumption. auto.
Qed.

Lemma C5_win_detector_witness :
  wellFormed (cells xWins) = true
  ∧ evaluate_spec (cells xWins) = Some X_won
  ∧ checkWinCondition (cells xWins) = Some (evaluate_spec (cells xWins))
  ∧ checkWinCondition (cells xWins) = Some (Some X_won).
Proof.
  assert (wellFormed (cells xWins) = true) as Hwf by (vm_compute; reflexivity).
  assert (Forall (fun c => markOrNull (value c) = true) (cells xWins)) as Hval
    by (vm_compute; repeat constructor).
  destruct (C5_win_detector (cells xWins) Hwf Hval) as (_ & _ & Hspec & Hline).
  split; [exact Hwf|]. split; [vm_compute; reflexivity|].
  split; [exact Hspec|].
  apply (Hline (1, 4, 7) X).
  - vm_compute. do 3 right. left.
  - left. reflexivity.
  - vm_compute. reflexivity.
  - intros l' Hl'. vm_compute in Hl'.
    repeat (apply elem_of_cons in Hl' as [->|Hl']; [vm_compute; reflexivity|]).
    apply elem_of_nil in Hl' as [].
Defined.

(** In the running program the detector is only called by [makeTurn], on
    the board after a click, and there it never raises the [TypeError]. *)
Lemma click_no_TypeError s cell :
  reachable s → snd (makeTurn_try s cell s) ≠ inl TypeError.
Proof.
  intros Hs. apply reachable_Inv in Hs as HInv.
  destruct (makeTurn_try_cases s cell)
    as [(_ & ->)|[(_ & _ & _ & ->)|[(HX & HO & Hfree & Hnone & _)|
        (_ & _ & _ & won & _ & ->)]]]; try discriminate.
  destruct (accepted_total s cell _ HInv eq_refl) as [r Hr].
  congruence.
Qed.

(** C9: on a well-formed board (nine cells, each identifier 1..9 exactly
    once) every lookup the detector makes finds its cell and the detector
    returns: no win, X won or O won.  It reads the board and builds
    nothing else. *)
Theorem C9_win_detector_total cs :
  wellFormed cs = true →
  (∀ i, 1 ≤ i ≤ 9 → is_Some (cellValue cs i))
  ∧ Forall (fun line : nat * nat * nat =>
              is_Some (cellValue cs line.1.1) ∧ is_Some (cellValue cs line.1.2)
              ∧ is_Some (cellValue cs line.2)) winConditions
  ∧ ∃ r, checkWinCondition cs = Some r
         ∧ (r = None ∨ r = Some X_won ∨ r = Some O_won).
Proof.
  intros Hwf.
  assert (∀ i, 1 ≤ i ≤ 9 → is_Some (cellValue cs i)) as Hlook.
  { intros i Hi. apply cellValue_is_Some, wellFormed_ids; assumption. }
  split; [exact Hlook|]. split.
  - unfold winConditions. repeat constructor; apply Hlook; cbn; lia.
  - destruct (checkLines_total cs winConditions (winConditions_in cs Hwf))
      as [r Hr].
    exists r. split; [exact Hr|].
    destruct r as [w|]; [|auto].
    apply checkLines_won in Hr as [->| ->]; auto.
Qed.

Lemma C9_win_detector_total_witness :
  wellFormed (cells drawn) = true
  ∧ checkWinCondition (cells drawn) = Some None.
Proof.
  assert (wellFormed (cells drawn) = true) as Hwf by (vm_compute; reflexivity).
  destruct (C9_win_detector_total (cells drawn) Hwf) as (_ & _ & r & Hr & _).
  split; [exact Hwf|]. rewrite Hr. vm_compute in Hr. congruence.
Defined.

(** ** Occupied cells *)

Lemma rejectedWith_intro kind s cell :
  makeTurn_try s cell s = (s, inl (GameError kind)) →
  rejectedWith kind s cell.
Proof.
  intros H. split; [exact H|]. unfold makeTurn. rewrite H. reflexivity.
Qed.

Lemma mark_occupies (cs : list Cell) cell c :
  c ∈ cs → cell_id c = cell_id cell →
  value c = X ∨ value c = O →
  existsb (occupied (cell_id cell)) cs = true.
Proof.
  intros Hin Hid Hval. apply existsb_exists. exists c.
  split; [apply list_elem_of_In; exact Hin|].
  unfold occupied. rewrite Hid, Nat.eqb_refl.
  destruct Hval as [-> | ->]; reflexivity.
Qed.

(** C6: in a session that is not over, a click on a cell that already
    carries a mark is rejected as [CELL_ALREADY_HAS_VALUE] and the session
    stays as it was; so is the second of two clicks in a row on the same
    cell, when the first one was accepted and did not end the game. *)
Theorem C6_occupied_cell_rejected s cell :
  terminal (status s) = false →
  ((∃ c, c ∈ cells s ∧ cell_id c = cell_id cell
         ∧ (value c = X ∨ value c = O)) →
   rejectedWith CELL_ALREADY_HAS_VALUE s cell
   ∧ fst (makeTurn s cell) = s)
  ∧ (cell ∈ cells s → accepted s cell = true →
     terminal (status (fst (makeTurn s cell))) = false →
     ∀ cell', cell_id cell' = cell_id cell →
       rejectedWith CELL_ALREADY_HAS_VALUE (fst (makeTurn s cell)) cell'
       ∧ fst (makeTurn (fst (makeTurn s cell)) cell') = fst (makeTurn s cell)).
Proof.
  intros Hterm.
  assert (∀ s0 c0,
    terminal (status s0) = false →
    existsb (occupied (cell_id c0)) (cells s0) = true →
    rejectedWith CELL_ALREADY_HAS_VALUE s0 c0 ∧ fst (makeTurn s0 c0) = s0)
    as Hrej.
  { intros s0 c0 Ht Hocc.
    assert (rejectedWith CELL_ALREADY_HAS_VALUE s0 c0) as H.
    { apply rejectedWith_intro, occupied_rejected; [..|exact Hocc];
        intros E; rewrite E in Ht; discriminate. }
    split; [exact H|]. destruct H as [_ ->]. reflexivity. }
  split.
  - intros (c & Hin & Hid & Hval). apply Hrej; [exact Hterm|].
    eapply mark_occupies; eauto.
  - intros Hin Hacc Hterm' cell' Hid.
    unfold accepted in Hacc.
    destruct (snd (makeTurn_try s cell s)) as [e|r] eqn:Hr; [discriminate|].
    destruct (accepted_committed s cell r Hr) as (won & _ & _ & _ & _ & Hs' & _).
    apply Hrej; [exact Hterm'|]. rewrite Hs'. cbn [committed cells].
    apply (mark_occupies _ cell' (markOne (status s) (cell_id cell) cell)).
    + apply list_elem_of_fmap. eauto.
    + rewrite markOne_id. congruence.
    + unfold markOne. rewrite Nat.eqb_refl. cbn [value].
      destruct (bool_decide _); auto.
Qed.

Lemma C6_occupied_cell_rejected_witness :
  terminal (status initial) = false
  ∧ accepted initial (mkCell 1 null) = true
  ∧ rejectedWith CELL_ALREADY_HAS_VALUE (click 1 initial) (mkCell 1 X)
  ∧ fst (makeTurn (click 1 initial) (mkCell 1 X)) = click 1 initial
  ∧ rejectedWith CELL_ALREADY_HAS_VALUE (click 1 (click 1 (click 2 initial)))
      (mkCell 2 null).
Proof.
  assert (terminal (status initial) = false) as H0 by reflexivity.
  assert (accepted initial (mkCell 1 null) = true) as H1
    by (vm_compute; reflexivity).
  assert (mkCell 1 null ∈ cells initial) as H2 by (vm_compute; left).
  assert (terminal (status (fst (makeTurn initial (mkCell 1 null)))) = false)
    as H3 by (vm_compute; reflexivity).
  destruct (proj2 (C6_occupied_cell_rejected initial (mkCell 1 null) H0)
              H2 H1 H3 (mkCell 1 X) eq_refl) as [Hrej Hsame].
  assert (terminal (status (click 1 (click 1 (click 2 initial)))) = false)
    as H4 by (vm_compute; reflexivity).
  split; [exact H0|]. split; [exact H1|].
  split; [exact Hrej|]. split; [exact Hsame|].
  apply (proj1 (C6_occupied_cell_rejected _ (mkCell 2 null) H4)).
  exists (mkCell 2 X). split; [vm_compute; right; left|].
  split; [reflexivity|left; reflexivity].
Defined.

(** ** Selecting a history entry *)

Lemma empty_board cs :
  boardOk cs → countNonEmpty cs = 0 → cs = createCells.
Proof.
  intros [Hids _] Hzero.
  assert (Forall (fun c => value c = null) cs) as Hnull.
  { clear Hids. induction cs as [|c cs IH]; [constructor|].
    rewrite countNonEmpty_cons in Hzero.
    destruct (isEmpty c) eqn:E; [|discriminate].
    constructor; [|apply IH; exact Hzero].
    unfold isEmpty in E. apply bool_decide_eq_true_1 in E. exact E. }
  assert (cs = (fun i => mkCell i null) <$> (cell_id <$> cs)) as Heq.
  { clear Hids Hzero. induction Hnull as [|[i v] cs Hv _ IH]; [reflexivity|].
    cbn in Hv. subst v. rewrite !fmap_cons. cbn [cell_id]. f_equal. exact IH. }
  rewrite Heq, Hids. reflexivity.
Qed.

Lemma Inv_entry_at_id s e :
  Inv s → e ∈ moves s → moves s !! id e = Some e.
Proof.
  intros HInv Hin. apply list_elem_of_lookup in Hin as [i Hlook].
  rewrite (entry_id _ _ _ (inv_entries s HInv i e Hlook)). exact Hlook.
Qed.

(** C7: selecting an entry of the log sets the current board, status and
    move index to the values the entry stores and deletes nothing from the
    log; selecting it again changes nothing, and the entry with sequence
    number 0 always restores the empty board with X to move. *)
Theorem C7_select_entry s e :
  reachable s → e ∈ moves s →
  let s' := fst (goToMove e s) in
  cells s' = entry_cells e ∧ status s' = entry_status e ∧ moveId s' = id e
  ∧ moves s' = moves s
  ∧ moves s !! id e = Some e
  ∧ fst (goToMove e s') = s'
  ∧ (∀ e2, e2 ∈ moves s →
       cells (fst (goToMove e (fst (goToMove e2 s')))) = cells s'
       ∧ status (fst (goToMove e (fst (goToMove e2 s')))) = status s')
  ∧ (id e = 0 →
       cells s' = createCells ∧ status s' = X_turn
       ∧ countEmpty (cells s') = 9).
Proof.
  intros Hs Hin s'. pose proof (reachable_Inv s Hs) as HInv.
  pose proof (Inv_entry_at_id s e HInv Hin) as Hlook.
  repeat (split; [first [reflexivity | exact Hlook]|]).
  split; [intros e2 _; split; reflexivity|].
  intros H0. unfold s'. rewrite goToMove_unfold. cbn [fst cells status].
  destruct (inv_entries s HInv _ e Hlook) as [_ Hboard Hcount Hstatus _].
  rewrite H0 in Hcount, Hstatus.
  rewrite (empty_board _ Hboard Hcount) in Hstatus |- *.
  split; [reflexivity|]. split; [exact Hstatus|reflexivity].
Qed.

Lemma C7_select_entry_witness :
  reachable xWins
  ∧ createMove 0 createCells X_turn None ∈ moves xWins
  ∧ status xWins = X_won
  ∧ cells (fst (goToMove (createMove 0 createCells X_turn None) xWins))
    = createCells
  ∧ status (fst (goToMove (createMove 0 createCells X_turn None) xWins))
    = X_turn
  ∧ length (moves (fst (goToMove (createMove 0 createCells X_turn None) xWins)))
    = 6.
Proof.
  assert (reachable xWins) as Hs
    by (apply clicks_reachable, reachable_initial).
  assert (createMove 0 createCells X_turn None ∈ moves xWins) as Hin
    by (vm_compute; left).
  destruct (C7_select_entry xWins _ Hs Hin)
    as (_ & _ & _ & Hmoves & _ & _ & _ & Hzero).
  destruct (Hzero eq_refl) as (Hc & Hst & _).
  split; [exact Hs|]. split; [exact Hin|].
  split; [vm_compute; reflexivity|].
  split; [exact Hc|]. split; [exact Hst|].
  rewrite Hmoves. vm_compute. reflexivity.
Defined.

(** ** Counting marks *)

Lemma applyMoves_reachable ns : ∀ s0 s,
  reachable s0 → applyMoves s0 ns = Some s →
  reachable s ∧ moveId s = moveId s0 + length ns.
Proof.
  induction ns as [|n ns IH]; intros s0 s Hs0; cbn [applyMoves length].
  - intros [= <-]. split; [exact Hs0|lia].
  - destruct (cellAt s0 n) as [c|] eqn:Hc; [|discriminate].
    destruct (accepted s0 c) eqn:Hacc; [|discriminate].
    intros Hrest. apply cellAt_elem in Hc as [Hin _].
    assert (reachable (fst (makeTurn s0 c))) as Hs1
      by (apply (reachable_step s0 (cellClicked c)); assumption).
    destruct (IH _ _ Hs1 Hrest) as [Hs Hid]. split; [exact Hs|].
    rewrite Hid. unfold accepted in Hacc.
    destruct (snd (makeTurn_try s0 c s0)) as [e|r] eqn:Hr; [discriminate|].
    destruct (accepted_committed s0 c r Hr) as (won & _ & _ & _ & _ & -> & _).
    cbn [committed moveId]. lia.
Qed.

Lemma reachable_count s :
  reachable s →
  countNonEmpty (cells s) = moveId s ∧ countEmpty (cells s) = 9 - moveId s.
Proof.
  intros Hs. apply reachable_Inv in Hs as HInv.
  pose proof (count_split (cells s)) as Hsplit.
  rewrite (Inv_count s HInv), (Inv_length s HInv) in Hsplit.
  split; [apply Inv_count; exact HInv|lia].
Qed.

(** C8: after a sequence of [N] legal moves from the initial session the
    board holds exactly [N] non-empty and [9 - N] empty cells, and [N] is
    the current move index. *)
Theorem C8_marks_count_moves ns s :
  applyMoves initial ns = Some s →
  countNonEmpty (cells s) = length ns
  ∧ countEmpty (cells s) = 9 - length ns
  ∧ moveId s = length ns
  ∧ length ns ≤ 9.
Proof.
  intros Hplay.
  destruct (applyMoves_reachable ns initial s reachable_initial Hplay)
    as [Hs Hid].
  cbn [initial moveId] in Hid.
  destruct (reachable_count s Hs) as [Hfull Hempty].
  pose proof (count_split (cells s)) as Hsplit.
  pose proof (Inv_length s (reachable_Inv s Hs)) as Hlen.
  rewrite Hid in *. cbn in Hfull, Hempty. repeat split; lia.
Qed.

Lemma C8_marks_count_moves_witness :
  applyMoves initial [1; 2; 4; 3; 7] = Some xWins
  ∧ countNonEmpty (cells xWins) = 5 ∧ countEmpty (cells xWins) = 4.
Proof.
  assert (applyMoves initial [1; 2; 4; 3; 7] = Some xWins) as Hplay
    by (vm_compute; reflexivity).
  destruct (C8_marks_count_moves _ _ Hplay) as (Hfull & Hempty & _).
  split; [exact Hplay|]. split; [exact Hfull|exact Hempty].
Defined.

(** ** The terminal flag *)

Lemma reachable_terminal_flag s :
  reachable s → terminal (status s) = true →
  gameOver s = true ∧ S (moveId s) = length (moves s).
Proof.
  intros Hs Hterm. apply reachable_Inv in Hs as HInv.
  destruct (Inv_current_entry s HInv) as (e & Hlook & _ & Hst & He).
  rewrite <- Hst in Hterm. split.
  - apply (inv_flag s HInv). eauto.
  - apply (entry_last _ _ _ He Hterm).
Qed.

Lemma earlier_entry_in_play s i e :
  Inv s → moves s !! i = Some e → S i < length (moves s) →
  terminal (entry_status e) = false
  ∧ checkWinCondition (entry_cells e) = Some None
  ∧ countNonEmpty (entry_cells e) < 9.
Proof.
  intros HInv Hlook Hlt.
  destruct (inv_entries s HInv i e Hlook) as [_ Hboard Hcount Hstatus Hlast].
  assert (terminal (entry_status e) = false) as Hterm.
  { apply not_true_is_false. intros H. specialize (Hlast H). lia. }
  split; [exact Hterm|].
  destruct (statusAt_terminal (entry_cells e) i) as [H|(_ & Hne & Hwin)];
    [congruence|].
  split.
  - destruct Hwin as [Hwin|Hwin]; [exact Hwin|].
    pose proof (checkLines_total (entry_cells e) winConditions
                  (winConditions_in _ (boardOk_wellFormed _ Hboard)))
      as [r Hr].
    unfold checkWinCondition in Hwin. congruence.
  - pose proof (count_split (entry_cells e)) as Hsplit.
    destruct Hboard as [Hids _].
    assert (length (entry_cells e) = 9) as Hlen
      by (rewrite <- (length_fmap cell_id), Hids; reflexivity).
    lia.
Qed.

Lemma flag_change s i :
  gameOver (dispatch s i) ≠ gameOver s →
  i = newGameRequested ∨ ∃ c, i = cellClicked c ∧ accepted s c = true.
Proof.
  destruct i as [c|e|]; cbn [dispatch]; intros Hne.
  - right. exists c. split; [reflexivity|]. unfold accepted.
    destruct (snd (makeTurn_try s c s)) as [err|r] eqn:Hr; [|reflexivity].
    rewrite (rejected_unchanged s c err Hr) in Hne. contradiction.
  - rewrite goToMove_unfold in Hne. cbn in Hne. contradiction.
  - left. reflexivity.
Qed.

(** C10: selecting a history entry leaves the terminal flag as it is.  Once
    a terminal state is reached the flag is set; jumping back to an
    earlier entry restores a board and a status that are in play while the
    flag stays set, and the flag changes only through an accepted move or a
    new game. *)
Theorem C10_selection_keeps_flag s e :
  reachable s → e ∈ moves s →
  let s' := fst (goToMove e s) in
  gameOver s' = gameOver s
  ∧ (terminal (status s) = true → id e < moveId s →
       gameOver s' = true
       ∧ terminal (status s') = false
       ∧ checkWinCondition (cells s') = Some None
       ∧ countNonEmpty (cells s') < 9)
  ∧ (∀ i, gameOver (dispatch s' i) ≠ gameOver s' →
       i = newGameRequested ∨ ∃ c, i = cellClicked c ∧ accepted s' c = true)
  ∧ (∀ c, accepted s' c = true →
       gameOver (fst (makeTurn s' c)) = terminal (status (fst (makeTurn s' c))))
  ∧ gameOver (fst (startNewGame s')) = false.
Proof.
  intros Hs Hin s'. pose proof (reachable_Inv s Hs) as HInv.
  split; [reflexivity|]. split; [|split; [|split; [|reflexivity]]].
  - intros Hterm Hlt.
    destruct (reachable_terminal_flag s Hs Hterm) as [Hflag Hlast].
    pose proof (Inv_entry_at_id s e HInv Hin) as Hlook.
    destruct (earlier_entry_in_play s (id e) e HInv Hlook) as (H1 & H2 & H3);
      [lia|].
    unfold s'. rewrite goToMove_unfold. cbn [fst gameOver status cells].
    auto.
  - intros i. apply flag_change.
  - intros c Hacc. unfold accepted in Hacc.
    destruct (snd (makeTurn_try s' c s')) as [err|r] eqn:Hr; [discriminate|].
    destruct (accepted_committed s' c r Hr)
      as (won & HX & HO & Hfree & Hwin & -> & _).
    cbn [committed gameOver status].
    eapply accepted_flag; eauto.
Qed.

Lemma C10_selection_keeps_flag_witness :
  reachable xWins
  ∧ createMove 0 createCells X_turn None ∈ moves xWins
  ∧ terminal (status xWins) = true
  ∧ gameOver (fst (goToMove (createMove 0 createCells X_turn None) xWins))
    = true
  ∧ terminal (status
      (fst (goToMove (createMove 0 createCells X_turn None) xWins))) = false
  ∧ gameOver (fst (makeTurn
      (fst (goToMove (createMove 0 createCells X_turn None) xWins))
      (mkCell 5 null))) = false.
Proof.
  assert (reachable xWins) as Hs
    by (apply clicks_reachable, reachable_initial).
  assert (createMove 0 createCells X_turn None ∈ moves xWins) as Hin
    by (vm_compute; left).
  assert (terminal (status xWins) = true) as Hterm by (vm_compute; reflexivity).
  assert (id (createMove 0 createCells X_turn None) < moveId xWins) as Hlt
    by (vm_compute; lia).
  destruct (C10_selection_keeps_flag xWins _ Hs Hin)
    as (_ & Hback & _ & Hmove & _).
  destruct (Hback Hterm Hlt) as (Hflag & Hstatus & _).
  split; [exact Hs|]. split; [exact Hin|]. split; [exact Hterm|].
  split; [exact Hflag|]. split; [exact Hstatus|].
  rewrite (Hmove (mkCell 5 null)) by (vm_compute; reflexivity).
  vm_compute. reflexivity.
Defined.

(** * Further properties of the program *)

(** ** [createMove] *)

Lemma default_label_inj i j :
  (if Nat.eqb i 0 then "Go to game start"
   else "Go to move #" +:+ pretty i)%string =
  (if Nat.eqb j 0 then "Go to game start"
   else "Go to move #" +:+ pretty j)%string →
  i = j.
Proof.
  destruct (Nat.eqb_spec i 0) as [->|Hi], (Nat.eqb_spec j 0) as [->|Hj];
    cbn; intros H; try reflexivity; try discriminate.
  injection H as H. exact (pretty_nat_inj _ _ H).
Qed.

(** X1: [createMove] stores the id, the board and the status it is given.
    A non-empty label argument becomes the label; an absent or empty one is
    replaced by "Go to game start" for id 0 and by "Go to move #" followed
    by the decimal id otherwise.  The label is never empty, and the default
    labels of different ids differ. *)
Theorem X1_createMove_label i cs st lbl :
  id (createMove i cs st lbl) = i
  ∧ entry_cells (createMove i cs st lbl) = cs
  ∧ entry_status (createMove i cs st lbl) = st
  ∧ label (createMove i cs st lbl) ≠ ""%string
  ∧ (∀ l, lbl = Some l → l ≠ ""%string → label (createMove i cs st lbl) = l)
  ∧ (lbl = None ∨ lbl = Some ""%string →
     (i = 0 → label (createMove i cs st lbl) = "Go to game start"%string)
     ∧ (i ≠ 0 →
        label (createMove i cs st lbl)
        = ("Go to move #" +:+ pretty i)%string))
  ∧ label (createMove 1 cs st None) = "Go to move #1"%string
  ∧ label (createMove 12 cs st None) = "Go to move #12"%string
  ∧ (∀ j cs' st',
       label (createMove i cs st None) = label (createMove j cs' st' None) →
       i = j).
Proof.
  assert (∀ k, (if Nat.eqb k 0 then "Go to game start"
                else "Go to move #" +:+ pretty k)%string ≠ ""%string) as Hdef.
  { intros k. destruct (Nat.eqb k 0); cbn; discriminate. }
  repeat (split; [reflexivity|]).
  split; [|split; [|split; [|split; [reflexivity|split; [reflexivity|]]]]].
  - destruct lbl as [l|]; cbn [createMove label]; [|apply Hdef].
    case_bool_decide; [apply Hdef|assumption].
  - intros l -> Hl. cbn [createMove label].
    rewrite bool_decide_eq_false_2 by exact Hl. reflexivity.
  - intros Hlbl.
    assert (label (createMove i cs st lbl)
            = (if Nat.eqb i 0 then "Go to game start"
               else "Go to move #" +:+ pretty i)%string) as ->
      by (destruct Hlbl as [-> | ->]; reflexivity).
    split; intros Hi.
    + subst i. reflexivity.
    + apply Nat.eqb_neq in Hi as ->. reflexivity.
  - intros j cs' st'. cbn [createMove label]. apply default_label_inj.
Qed.

(** ** Marks and labels along the history *)

Lemma countMark_cons m c cs :
  countMark m (c :: cs) =
    (if bool_decide (value c = m) then 1 else 0) + countMark m cs.
Proof.
  unfold countMark. rewrite filter_cons.
  case_bool_decide; case_decide; try contradiction; reflexivity.
Qed.

Lemma markOne_hit st target c :
  cell_id c = target → markOne st target c = mkCell (cell_id c) (mover st).
Proof. intros H. unfold markOne. apply Nat.eqb_eq in H as ->. reflexivity. Qed.

Lemma markOne_miss st target c :
  cell_id c ≠ target → markOne st target c = c.
Proof. intros H. unfold markOne. apply Nat.eqb_neq in H as ->. reflexivity. Qed.

Lemma countMark_mark st target m (cs : list Cell) :
  NoDup (cell_id <$> cs) →
  (∃ c, c ∈ cs ∧ cell_id c = target ∧ value c = null) →
  m ≠ null →
  countMark m (markOne st target <$> cs) =
    countMark m cs + (if bool_decide (mover st = m) then 1 else 0).
Proof.
  induction cs as [|c cs IH]; intros Hnd (c0 & Hin & Hid & Hval) Hm.
  - apply elem_of_nil in Hin as [].
  - rewrite fmap_cons in Hnd. apply NoDup_cons in Hnd as [Hhd Hnd].
    rewrite fmap_cons, !countMark_cons.
    destruct (decide (cell_id c = target)) as [Hc|Hc].
    + assert (c0 = c) as ->.
      { apply elem_of_cons in Hin as [->|Hin]; [reflexivity|].
        exfalso. apply Hhd. rewrite Hc, <- Hid. apply list_elem_of_fmap.
        eauto. }
      rewrite markOne_absent by congruence.
      rewrite markOne_hit by exact Hc. cbn [value]. rewrite Hval.
      rewrite (bool_decide_eq_false_2 (null = m)) by congruence. lia.
    + apply elem_of_cons in Hin as [->|Hin]; [congruence|].
      rewrite IH by eauto.
      rewrite markOne_miss by exact Hc. lia.
Qed.

Lemma accepted_label s won :
  bool_decide (is_Some (nextGameOver s won)) = terminal (nextStatus s won) →
  ∀ cs, label (createMove (moveId s + 1) cs (nextStatus s won) (nextLabel s won))
        = expectedLabel (moveId s + 1) (nextStatus s won).
Proof.
  intros Hflag cs. unfold nextLabel, expectedLabel. rewrite <- Hflag.
  destruct (nextGameOver s won) as [g|]; cbn [createMove label].
  - reflexivity.
  - rewrite Nat.add_1_r. reflexivity.
Qed.

Lemma half_step k :
  (k + 1 + 1) / 2 = (k + 1) / 2 + (if Nat.even k then 1 else 0)
  ∧ (k + 1) / 2 = k / 2 + (if Nat.even k then 0 else 1).
Proof.
  destruct (Nat.even k) eqn:E.
  - apply Nat.even_spec in E as [m ->].
    replace (2 * m + 1 + 1) with ((m + 1) * 2) by lia.
    replace (2 * m + 1) with (1 + m * 2) by lia.
    replace (2 * m) with (m * 2) by lia.
    rewrite !Nat.div_mul, Nat.div_add by lia. cbn. lia.
  - assert (Nat.odd k = true) as [m ->]%Nat.odd_spec
      by (rewrite <- Nat.negb_even, E; reflexivity).
    replace (2 * m + 1 + 1 + 1) with (1 + (m + 1) * 2) by lia.
    replace (2 * m + 1 + 1) with ((m + 1) * 2) by lia.
    replace (2 * m + 1) with (1 + m * 2) by lia.
    rewrite !Nat.div_mul, !Nat.div_add by lia. cbn. lia.
Qed.

Lemma MarksInv_initial : MarksInv initial.
Proof.
  intros [|i] e Hlook; [|discriminate]. injection Hlook as <-.
  split; reflexivity.
Qed.

Lemma MarksInv_makeTurn s cell :
  Inv s → MarksInv s → cell ∈ cells s → MarksInv (fst (makeTurn s cell)).
Proof.
  intros HInv HM Hin. rewrite makeTurn_session.
  destruct (makeTurn_try_cases s cell)
    as [(_ & ->)|[(_ & _ & _ & ->)|[(_ & _ & _ & _ & ->)|
        (HX & HO & Hfree & won & Hwin & ->)]]]; try exact HM.
  cbn [fst]. intros i e Hlook. cbn [committed moves] in Hlook.
  pose proof (Inv_moveId s HInv) as Hlt.
  assert (length (take (moveId s + 1) (moves s)) = moveId s + 1) as Htake
    by (rewrite length_take; lia).
  destruct (decide (i < moveId s + 1)) as [Hi|Hi].
  { rewrite lookup_app_l, lookup_take_lt in Hlook by lia. exact (HM i e Hlook). }
  rewrite lookup_app_r, Htake in Hlook by lia.
  destruct (i - (moveId s + 1)) as [|n] eqn:Hd; [|discriminate].
  assert (i = moveId s + 1) as -> by lia. injection Hlook as <-.
  destruct (accepted_turn s cell HInv Hin Hfree HX HO) as [Hturn _].
  destruct (Inv_current_entry s HInv) as (cur & Hcur & Hcells & _).
  destruct (HM _ _ Hcur) as [_ HcX HcO]. rewrite Hcells in HcX, HcO.
  assert (∃ c, c ∈ cells s ∧ cell_id c = cell_id cell ∧ value c = null) as Hnull.
  { exists cell. repeat split; [exact Hin|].
    apply (accepted_null s cell HInv Hin Hfree). }
  destruct (half_step (moveId s)) as [HhX HhO].
  split; cbn [createMove entry_cells entry_status].
  - apply accepted_label. eapply accepted_flag; eauto.
  - rewrite countMark_mark, HcX, HhX by (auto using Inv_NoDup; discriminate).
    rewrite Hturn. destruct (Nat.even (moveId s)); reflexivity.
  - rewrite countMark_mark, HcO, HhO by (auto using Inv_NoDup; discriminate).
    rewrite Hturn. destruct (Nat.even (moveId s)); reflexivity.
Qed.

Lemma reachable_MarksInv s : reachable s → MarksInv s.
Proof.
  induction 1 as [|s i Hs IH Hoff]; [exact MarksInv_initial|].
  destruct i as [c|e|]; cbn [dispatch offered] in *.
  - apply MarksInv_makeTurn; auto using reachable_Inv.
  - exact IH.
  - exact MarksInv_initial.
Qed.

(** X2: in every reachable session the entry at index 0 is labelled
    "Go to game start", an entry that ended the game is labelled
    "Go to game over: " followed by its status, and every other entry [i]
    is labelled "Go to move #i". *)
Theorem X2_history_labels s i e :
  reachable s → moves s !! i = Some e →
  label e = expectedLabel i (entry_status e)
  ∧ (i = 0 → label e = "Go to game start"%string)
  ∧ (terminal (entry_status e) = true →
     label e = ("Go to game over: " +:+ status_text (entry_status e))%string
     ∧ S i = length (moves s))
  ∧ (0 < i → S i < length (moves s) →
     label e = ("Go to move #" +:+ pretty i)%string).
Proof.
  intros Hs Hlook. pose proof (reachable_Inv s Hs) as HInv.
  destruct (reachable_MarksInv s Hs i e Hlook) as [Hlabel _ _].
  destruct (inv_entries s HInv i e Hlook) as [_ Hboard Hcount Hstatus Hlast].
  split; [exact Hlabel|]. rewrite Hlabel. unfold expectedLabel.
  split; [|split].
  - intros ->. rewrite (empty_board _ Hboard Hcount) in Hstatus.
    rewrite Hstatus. reflexivity.
  - intros Hterm. rewrite Hterm. auto.
  - intros Hpos Hlt.
    destruct (terminal (entry_status e)); [specialize (Hlast eq_refl); lia|].
    destruct (Nat.eqb_spec i 0); [lia|reflexivity].
Qed.

Lemma X2_history_labels_witness :
  reachable xWins
  ∧ moves xWins !! 5
    = Some (mkMove 5 (cells xWins) X_won "Go to game over: X won")
  ∧ label (mkMove 5 (cells xWins) X_won "Go to game over: X won")
    = expectedLabel 5 X_won.
Proof.
  assert (reachable xWins) as Hs
    by (apply clicks_reachable, reachable_initial).
  assert (moves xWins !! 5
          = Some (mkMove 5 (cells xWins) X_won "Go to game over: X won"))
    as Hlook by (vm_compute; reflexivity).
  split; [exact Hs|]. split; [exact Hlook|].
  exact (proj1 (X2_history_labels xWins 5 _ Hs Hlook)).
Defined.

(** X3: the two players' marks alternate, X first: in every reachable
    session the board holds [(moveId + 1) / 2] marks of X and [moveId / 2]
    marks of O, so X is never behind and never more than one ahead. *)
Theorem X3_marks_alternate s :
  reachable s →
  countMark X (cells s) = (moveId s + 1) / 2
  ∧ countMark O (cells s) = moveId s / 2
  ∧ countMark O (cells s) ≤ countMark X (cells s) ≤ countMark O (cells s) + 1.
Proof.
  intros Hs. pose proof (reachable_Inv s Hs) as HInv.
  destruct (Inv_current_entry s HInv) as (cur & Hcur & Hcells & _).
  destruct (reachable_MarksInv s Hs _ _ Hcur) as [_ HcX HcO].
  rewrite Hcells in HcX, HcO. rewrite HcX, HcO.
  split; [reflexivity|]. split; [reflexivity|].
  destruct (half_step (moveId s)) as [_ ->].
  destruct (Nat.even (moveId s)); lia.
Qed.

Lemma X3_marks_alternate_witness :
  reachable xWins
  ∧ countMark X (cells xWins) = 3 ∧ countMark O (cells xWins) = 2.
Proof.
  assert (reachable xWins) as Hs
    by (apply clicks_reachable, reachable_initial).
  destruct (X3_marks_alternate xWins Hs) as (HX & HO & _).
  split; [exact Hs|]. split; [exact HX|exact HO].
Defined.

(** ** Status, board and move index *)

Lemma reachable_detector s :
  reachable s → ∃ r, checkWinCondition (cells s) = Some r
                     ∧ (r = None ∨ r = Some X_won ∨ r = Some O_won).
Proof.
  intros Hs. pose proof (Inv_board s (reachable_Inv s Hs)) as Hboard.
  destruct (checkLines_total (cells s) winConditions
              (winConditions_in _ (boardOk_wellFormed _ Hboard))) as [r Hr].
  exists r. split; [exact Hr|]. destruct r as [w|]; [|auto].
  apply checkLines_won in Hr as [->| ->]; auto.
Qed.

(** X4: in every reachable session the status is a function of the board
    and the move index: it is a win exactly when the detector reports that
    win on the current board, the draw exactly when there is no win and
    nine moves were made, and otherwise the turn of X after an even and of
    O after an odd number of moves.  No game has more than nine moves. *)
Theorem X4_status_from_board s :
  reachable s →
  moveId s ≤ 9
  ∧ (status s = X_won ↔ checkWinCondition (cells s) = Some (Some X_won))
  ∧ (status s = O_won ↔ checkWinCondition (cells s) = Some (Some O_won))
  ∧ (status s = Stalemate ↔
     checkWinCondition (cells s) = Some None ∧ moveId s = 9)
  ∧ (status s = X_turn ↔
     checkWinCondition (cells s) = Some None ∧ moveId s < 9
     ∧ Nat.even (moveId s) = true)
  ∧ (status s = O_turn ↔
     checkWinCondition (cells s) = Some None ∧ moveId s < 9
     ∧ Nat.even (moveId s) = false).
Proof.
  intros Hs. pose proof (reachable_Inv s Hs) as HInv.
  pose proof (Inv_status s HInv) as Hst.
  assert (moveId s ≤ 9) as Hle.
  { pose proof (count_split (cells s)) as Hsplit.
    rewrite (Inv_count s HInv), (Inv_length s HInv) in Hsplit. lia. }
  destruct (reachable_detector s Hs) as (r & Hr & Hcase).
  unfold statusAt in Hst. rewrite Hr in Hst. rewrite Hr.
  split; [exact Hle|].
  destruct Hcase as [->|[->| ->]]; rewrite Hst.
  - destruct (Nat.eqb_spec (moveId s) 9) as [H9|H9].
    + repeat split; intros; try discriminate; try tauto; try lia;
        destruct_and?; try discriminate; lia.
    + destruct (Nat.even (moveId s)) eqn:E;
        repeat split; intros; try discriminate; try tauto; try lia;
        destruct_and?; try discriminate; try lia; congruence.
  - repeat split; intros; destruct_and?; try discriminate; auto.
  - repeat split; intros; destruct_and?; try discriminate; auto.
Qed.

Lemma X4_status_from_board_witness :
  reachable drawn ∧ status drawn = Stalemate
  ∧ checkWinCondition (cells drawn) = Some None ∧ moveId drawn = 9.
Proof.
  assert (reachable drawn) as Hs
    by (apply clicks_reachable, reachable_initial).
  destruct (X4_status_from_board drawn Hs) as (_ & _ & _ & Hdraw & _).
  assert (status drawn = Stalemate) as Hst by (vm_compute; reflexivity).
  destruct (proj1 Hdraw Hst) as [Hwin H9].
  split; [exact Hs|]. split; [exact Hst|]. split; [exact Hwin|exact H9].
Defined.

(** ** What a click does *)

Lemma cell_unique (cs : list Cell) c c' :
  NoDup (cell_id <$> cs) → c ∈ cs → c' ∈ cs → cell_id c = cell_id c' → c = c'.
Proof.
  intros Hnd Hc Hc' Hid.
  apply list_elem_of_lookup in Hc as [j Hj].
  apply list_elem_of_lookup in Hc' as [j' Hj'].
  assert (j = j') as ->.
  { apply (NoDup_lookup _ _ _ (cell_id c) Hnd);
      rewrite list_lookup_fmap; [rewrite Hj|rewrite Hj', Hid]; reflexivity. }
  congruence.
Qed.

Lemma occupied_isEmpty cs c :
  boardOk cs → c ∈ cs →
  existsb (occupied (cell_id c)) cs = negb (isEmpty c).
Proof.
  intros Hboard Hin.
  assert (NoDup (cell_id <$> cs)) as Hnd
    by (destruct Hboard as [-> _]; apply NoDup_seq).
  destruct (existsb _ cs) eqn:Hocc.
  - apply existsb_exists in Hocc as (c' & Hc' & Ho).
    apply list_elem_of_In in Hc'. unfold occupied in Ho.
    apply andb_true_iff in Ho as [Hid Ht]. apply Nat.eqb_eq in Hid.
    assert (c' = c) as -> by (eapply cell_unique; eauto).
    unfold isEmpty. destruct (value c); try discriminate; reflexivity.
  - unfold isEmpty. rewrite (not_occupied_null cs c Hboard Hin Hocc).
    reflexivity.
Qed.

Lemma makeTurn_alert s cell :
  snd (makeTurn s cell) =
    match snd (makeTurn_try s cell s) with
    | inr (Some _, st) => Some ("Game is over! " +:+ status_text st)%string
    | inr (None, _) => None
    | inl (GameError kind) => Some (_GAME_ERRORS kind)
    | inl TypeError => None
    end.
Proof.
  unfold makeTurn.
  destruct (makeTurn_try s cell s) as [p [[kind|]|[[g|] st]]]; reflexivity.
Qed.

Lemma accepted_iff s c :
  reachable s → c ∈ cells s →
  (accepted s c = true ↔ terminal (status s) = false ∧ value c = null).
Proof.
  intros Hs Hin. pose proof (reachable_Inv s Hs) as HInv.
  pose proof (Inv_board s HInv) as Hboard.
  pose proof (occupied_isEmpty _ c Hboard Hin) as Hocc.
  unfold accepted.
  destruct (makeTurn_try_cases s c)
    as [(Hwon & ->)|[(HX & HO & Hfull & ->)|[(HX & HO & Hfree & Hnone & ->)|
        (HX & HO & Hfree & won & Hwin & ->)]]]; cbn [snd].
  - split; [discriminate|]. intros [Hterm _].
    destruct Hwon as [H|H]; rewrite H in Hterm; discriminate.
  - split; [discriminate|]. intros [_ Hnull].
    rewrite Hfull in Hocc. unfold isEmpty in Hocc.
    rewrite bool_decide_eq_true_2 in Hocc by exact Hnull. discriminate.
  - destruct (accepted_total s c _ HInv eq_refl) as [r Hr]. congruence.
  - split; [|reflexivity]. intros _.
    destruct (accepted_turn s c HInv Hin Hfree HX HO) as [-> _].
    split; [destruct (Nat.even _); reflexivity|].
    apply (accepted_null s c HInv Hin Hfree).
Qed.

(** X5: in a reachable session a click on a rendered cell is accepted
    exactly when it is a player's turn and the cell is empty. *)
Theorem X5_legal_move s c :
  reachable s → c ∈ cells s →
  (accepted s c = true ↔ terminal (status s) = false ∧ value c = null).
Proof. exact (accepted_iff s c). Qed.

Lemma X5_legal_move_witness :
  reachable (click 1 initial)
  ∧ accepted (click 1 initial) (mkCell 2 null) = true
  ∧ accepted (click 1 initial) (mkCell 1 X) = false.
Proof.
  assert (reachable (click 1 initial)) as Hs
    by (apply click_reachable, reachable_initial).
  assert (mkCell 2 null ∈ cells (click 1 initial)) as H2
    by (vm_compute; right; left).
  assert (mkCell 1 X ∈ cells (click 1 initial)) as H1 by (vm_compute; left).
  split; [exact Hs|]. split.
  - apply (X5_legal_move _ _ Hs H2). split; reflexivity.
  - apply not_true_is_false. intros Hacc.
    apply (X5_legal_move _ _ Hs H1) in Hacc as [_ Hnull]. discriminate.
Defined.

(** X6: the alert of a click on a rendered cell of a reachable session:
    the game-over message while the status is a win, the occupied-cell
    message for a cell that is not empty, "Game is over! " followed by the
    new status when the accepted move ends the game, and no alert for any
    other accepted move. *)
Theorem X6_click_alert s c :
  reachable s → c ∈ cells s → snd (makeTurn s c) = expectedAlert s c.
Proof.
  intros Hs Hin. pose proof (reachable_Inv s Hs) as HInv.
  pose proof (occupied_isEmpty _ c (Inv_board s HInv) Hin) as Hocc.
  rewrite makeTurn_alert. unfold expectedAlert. rewrite makeTurn_session.
  destruct (makeTurn_try_cases s c)
    as [(Hwon & ->)|[(HX & HO & Hfull & ->)|[(HX & HO & Hfree & Hnone & ->)|
        (HX & HO & Hfree & won & Hwin & ->)]]]; cbn [fst snd].
  - destruct Hwon as [-> | ->]; reflexivity.
  - rewrite !bool_decide_eq_false_2 by assumption. cbn [orb].
    rewrite Hfull in Hocc. destruct (isEmpty c); [discriminate|reflexivity].
  - destruct (accepted_total s c _ HInv eq_refl) as [r Hr]. congruence.
  - rewrite !bool_decide_eq_false_2 by assumption. cbn [orb].
    rewrite Hfree in Hocc. destruct (isEmpty c); [|discriminate].
    cbn [committed status].
    assert (bool_decide (is_Some (nextGameOver s won))
            = terminal (nextStatus s won)) as <-
      by (eapply accepted_flag; eauto).
    destruct (nextGameOver s won); reflexivity.
Qed.

Lemma X6_click_alert_witness :
  reachable (clicks [1; 2; 4; 3] initial)
  ∧ snd (makeTurn (clicks [1; 2; 4; 3] initial) (mkCell 7 null))
    = Some "Game is over! X won"%string
  ∧ snd (makeTurn (clicks [1; 2; 4; 3] initial) (mkCell 1 X))
    = Some "This cell already has value"%string
  ∧ snd (makeTurn (clicks [1; 2; 4; 3] initial) (mkCell 5 null)) = None.
Proof.
  assert (reachable (clicks [1; 2; 4; 3] initial)) as Hs
    by (apply clicks_reachable, reachable_initial).
  assert (mkCell 7 null ∈ cells (clicks [1; 2; 4; 3] initial)) as H7
    by (vm_compute; do 6 right; left).
  assert (mkCell 1 X ∈ cells (clicks [1; 2; 4; 3] initial)) as H1
    by (vm_compute; left).
  assert (mkCell 5 null ∈ cells (clicks [1; 2; 4; 3] initial)) as H5
    by (vm_compute; do 4 right; left).
  split; [exact Hs|].
  rewrite (X6_click_alert _ _ Hs H7), (X6_click_alert _ _ Hs H1),
    (X6_click_alert _ _ Hs H5).
  repeat split; vm_compute; reflexivity.
Defined.

(** X7: an accepted click on a rendered cell of a reachable session
    rewrites exactly that position of the board: the cell keeps its
    identifier and takes the mark of the player to move (X on X's turn, O
    on O's turn); every other position is as before. *)
Theorem X7_move_changes_one_cell s c j :
  reachable s → cells s !! j = Some c → accepted s c = true →
  cells (fst (makeTurn s c))
    = <[j := mkCell (cell_id c) (mover (status s))]> (cells s)
  ∧ (status s = X_turn ∧ mover (status s) = X
     ∨ status s = O_turn ∧ mover (status s) = O).
Proof.
  intros Hs Hj Hacc. pose proof (reachable_Inv s Hs) as HInv.
  assert (c ∈ cells s) as Hin by (apply list_elem_of_lookup; eauto).
  pose proof (Inv_NoDup s HInv) as Hnd.
  unfold accepted in Hacc.
  destruct (snd (makeTurn_try s c s)) as [e|r] eqn:Hr; [discriminate|].
  destruct (accepted_committed s c r Hr)
    as (won & HX & HO & Hfree & _ & -> & _).
  split.
  - cbn [committed cells]. apply list_eq. intros k.
    rewrite list_lookup_fmap.
    destruct (decide (k = j)) as [->|Hne].
    + rewrite list_lookup_insert_eq by (eapply lookup_lt_Some; eauto).
      rewrite Hj. cbn. rewrite markOne_hit by reflexivity. reflexivity.
    + rewrite list_lookup_insert_ne by congruence.
      destruct (cells s !! k) as [c'|] eqn:Hk; [|reflexivity]. cbn.
      rewrite markOne_miss; [reflexivity|]. intros Hid. apply Hne.
      apply (NoDup_lookup _ _ _ (cell_id c) Hnd);
        rewrite list_lookup_fmap; [rewrite Hk|rewrite Hj]; cbn; congruence.
  - destruct (accepted_turn s c HInv Hin Hfree HX HO) as [-> _].
    destruct (Nat.even _); [left|right]; split; reflexivity.
Qed.

Lemma X7_move_changes_one_cell_witness :
  reachable initial ∧ accepted initial (mkCell 5 null) = true
  ∧ cells (fst (makeTurn initial (mkCell 5 null)))
    = <[4 := mkCell 5 X]> createCells.
Proof.
  assert (reachable initial) as Hs by constructor.
  assert (cells initial !! 4 = Some (mkCell 5 null)) as Hj by reflexivity.
  assert (accepted initial (mkCell 5 null) = true) as Hacc
    by (vm_compute; reflexivity).
  split; [exact Hs|]. split; [exact Hacc|].
  exact (proj1 (X7_move_changes_one_cell _ _ _ Hs Hj Hacc)).
Defined.

(** ** Who wins *)







(** ** A click that names no cell *)

Lemma absent_not_occupied target (cs : list Cell) :
  target ∉ cell_id <$> cs → existsb (occupied target) cs = false.
Proof.
  intros Habs. apply not_true_is_false. intros Hocc.
  apply existsb_exists in Hocc as (c & Hin & Ho).
  apply list_elem_of_In in Hin. unfold occupied in Ho.
  apply andb_true_iff in Ho as [Hid _]. apply Nat.eqb_eq in Hid.
  apply Habs. rewrite <- Hid. apply list_elem_of_fmap. eauto.
Qed.

(** X9: [makeTurn] does not check that the clicked identifier exists.  On
    a well-formed board whose status is not a win, a cell object whose id
    no cell of the board carries is accepted: the board stays as it is,
    yet the move index advances and an entry holding the unchanged board
    is appended to the kept prefix of the history. *)
Theorem X9_unknown_cell_id s cell :
  status s ≠ X_won → status s ≠ O_won →
  wellFormed (cells s) = true →
  cell_id cell ∉ cell_id <$> cells s →
  accepted s cell = true
  ∧ cells (fst (makeTurn s cell)) = cells s
  ∧ moveId (fst (makeTurn s cell)) = moveId s + 1
  ∧ ∃ e', moves (fst (makeTurn s cell)) = take (moveId s + 1) (moves s) ++ [e']
          ∧ id e' = moveId s + 1 ∧ entry_cells e' = cells s.
Proof.
  intros HX HO Hwf Habs.
  pose proof (absent_not_occupied _ _ Habs) as Hfree.
  pose proof (markOne_absent (status s) _ _ Habs) as Hsame.
  destruct (checkLines_total (cells s) winConditions (winConditions_in _ Hwf))
    as [won Hwon].
  unfold accepted. rewrite makeTurn_session.
  destruct (makeTurn_try_cases s cell)
    as [([?|?] & _)|[(_ & _ & Hfull & _)|[(_ & _ & _ & Hnone & _)|
        (_ & _ & _ & won' & Hwin & ->)]]]; try contradiction.
  - congruence.
  - rewrite Hsame in Hnone. unfold checkWinCondition in Hnone. congruence.
  - rewrite Hsame. cbn [fst snd committed cells moveId moves].
    repeat split. eexists. split; [reflexivity|]. split; reflexivity.
Qed.

Lemma X9_unknown_cell_id_witness :
  accepted initial (mkCell 10 null) = true
  ∧ cells (fst (makeTurn initial (mkCell 10 null))) = createCells
  ∧ moveId (fst (makeTurn initial (mkCell 10 null))) = 1.
Proof.
  assert (status initial ≠ X_won) as HX by discriminate.
  assert (status initial ≠ O_won) as HO by discriminate.
  assert (wellFormed (cells initial) = true) as Hwf by (vm_compute; reflexivity).
  assert (cell_id (mkCell 10 null) ∉ cell_id <$> cells initial) as Habs.
  { vm_compute. intros H.
    repeat (apply elem_of_cons in H as [H|H]; [discriminate|]).
    apply elem_of_nil in H as []. }
  destruct (X9_unknown_cell_id initial (mkCell 10 null) HX HO Hwf Habs)
    as (Hacc & Hcells & Hid & _).
  split; [exact Hacc|]. split; [exact Hcells|exact Hid].
Defined.

(** ** Moving about the history *)

(** X10: selecting the entry of the current move index changes nothing,
    and selecting it after any other entry of the log brings back the
    session exactly. *)
Theorem X10_select_round_trip s e cur :
  reachable s → e ∈ moves s → moves s !! moveId s = Some cur →
  fst (goToMove cur s) = s
  ∧ fst (goToMove cur (fst (goToMove e s))) = s.
Proof.
  intros Hs Hin Hcur. pose proof (reachable_Inv s Hs) as HInv.
  destruct (inv_current s HInv) as (cur' & Hcur' & Hcells & Hstatus).
  assert (cur' = cur) as -> by congruence.
  pose proof (entry_id _ _ _ (inv_entries s HInv _ _ Hcur)) as Hid.
  rewrite !goToMove_unfold. cbn [fst moves gameOver].
  rewrite Hcells, Hstatus, Hid. destruct s; auto.
Qed.

Lemma X10_select_round_trip_witness :
  reachable xWins
  ∧ moves xWins !! moveId xWins
    = Some (mkMove 5 (cells xWins) X_won "Go to game over: X won")
  ∧ fst (goToMove (mkMove 5 (cells xWins) X_won "Go to game over: X won")
           (fst (goToMove (createMove 0 createCells X_turn None) xWins)))
    = xWins.
Proof.
  assert (reachable xWins) as Hs
    by (apply clicks_reachable, reachable_initial).
  assert (createMove 0 createCells X_turn None ∈ moves xWins) as Hin
    by (vm_compute; left).
  assert (moves xWins !! moveId xWins
          = Some (mkMove 5 (cells xWins) X_won "Go to game over: X won"))
    as Hcur by (vm_compute; reflexivity).
  split; [exact Hs|]. split; [exact Hcur|].
  exact (proj2 (X10_select_round_trip _ _ _ Hs Hin Hcur)).
Defined.

(** ** Symmetry of the win detector *)

Lemma cellValue_swap (cs : list Cell) i :
  cellValue (swapCell <$> cs) i = opponent <$> cellValue cs i.
Proof.
  induction cs as [|c cs IH]; [reflexivity|].
  rewrite fmap_cons. cbn [cellValue swapCell cell_id value].
  destruct (Nat.eqb (cell_id c) i); [reflexivity|exact IH].
Qed.

Lemma strict_eq_opponent a b :
  strict_eq (opponent a) (opponent b) = strict_eq a b.
Proof.
  unfold strict_eq. destruct a, b; cbn; try reflexivity;
    repeat case_bool_decide; simplify_eq; reflexivity.
Qed.

(** X11: the detector treats the two players alike: on any board,
    exchanging the marks X and O exchanges the answers 'X won' and
    'O won' and changes nothing else (no win stays no win, a failed lookup
    stays a failed lookup). *)
Theorem X11_detector_symmetric (cs : list Cell) :
  checkWinCondition (swapCell <$> cs)
  = (fun r : option GameStatus => swapWon <$> r) <$> checkWinCondition cs.
Proof.
  unfold checkWinCondition.
  induction winConditions as [|[[i0 i1] i2] lines IH]; [reflexivity|].
  cbn [checkLines]. rewrite !cellValue_swap.
  destruct (cellValue cs i0) as [v0|]; [|reflexivity].
  destruct (cellValue cs i1) as [v1|]; [|reflexivity]. cbn.
  rewrite strict_eq_opponent.
  destruct (strict_eq v0 v1); [|exact IH].
  destruct (cellValue cs i2) as [v2|]; [|reflexivity]. cbn.
  rewrite strict_eq_opponent.
  destruct (strict_eq v1 v2); [|exact IH].
  destruct v0; cbn; try reflexivity; exact IH.
Qed.

(** ** What is rendered *)

Lemma MovesHistory_clicked (ms : list MoveHistoryEntry) :
  item_clicked <$> MovesHistory ms = ms.
Proof.
  unfold MovesHistory. rewrite <- list_fmap_compose.
  rewrite <- (list_fmap_id ms) at 2. apply list_fmap_ext.
  intros _ [i cs st l] _. reflexivity.
Qed.

Lemma reachable_history_ids s :
  reachable s → id <$> moves s = seq 0 (length (moves s)).
Proof.
  intros Hs. pose proof (reachable_Inv s Hs) as HInv.
  apply list_eq. intros i. rewrite list_lookup_fmap.
  destruct (moves s !! i) as [e|] eqn:Hlook; cbn.
  - rewrite (entry_id _ _ _ (inv_entries s HInv i e Hlook)).
    symmetry. apply lookup_seq. split; [reflexivity|].
    eapply lookup_lt_Some; eauto.
  - symmetry. apply lookup_ge_None. rewrite length_seq.
    apply lookup_ge_None in Hlook. exact Hlook.
Qed.

Lemma reachable_history_length s :
  reachable s → 1 ≤ length (moves s) ≤ 10.
Proof.
  intros Hs. pose proof (reachable_Inv s Hs) as HInv.
  pose proof (Inv_moveId s HInv) as Hlt. split; [lia|].
  destruct (decide (length (moves s) ≤ 10)) as [|Hbig]; [assumption|exfalso].
  destruct (lookup_lt_is_Some_2 (moves s) 10) as [e Hlook]; [lia|].
  destruct (inv_entries s HInv 10 e Hlook) as [_ [Hids _] Hcount _ _].
  pose proof (count_split (entry_cells e)) as Hsplit.
  assert (length (entry_cells e) = 9) as Hlen
    by (rewrite <- (length_fmap cell_id), Hids; reflexivity).
  lia.
Qed.

(** X12: what the page lists in a reachable session.  The history shows
    between one and ten buttons whose React keys are 0, 1, 2, ... without
    repetition; the button at position [j] is numbered [j + 1] and hands
    [goToMove] exactly the entry stored at position [j].  The board shows
    the nine cells with keys 1..9 in order and hands [makeTurn] the cell
    it shows. *)
Theorem X12_rendered_lists s :
  reachable s →
  item_key <$> MovesHistory (moves s) = seq 0 (length (moves s))
  ∧ NoDup (item_key <$> MovesHistory (moves s))
  ∧ 1 ≤ length (MovesHistory (moves s)) ≤ 10
  ∧ (∀ j it, MovesHistory (moves s) !! j = Some it →
       item_number it = (pretty (j + 1) +:+ ". ")%string
       ∧ moves s !! j = Some (item_clicked it)
       ∧ offered s (historyEntryClicked (item_clicked it)))
  ∧ board_key <$> Board (cells s) = seq 1 9
  ∧ NoDup (board_key <$> Board (cells s))
  ∧ (∀ it, it ∈ Board (cells s) →
       board_shown it = value (board_clicked it)
       ∧ offered s (cellClicked (board_clicked it))).
Proof.
  intros Hs. pose proof (reachable_Inv s Hs) as HInv.
  assert (item_key <$> MovesHistory (moves s) = id <$> moves s) as Hkeys.
  { unfold MovesHistory. rewrite <- list_fmap_compose. reflexivity. }
  assert (board_key <$> Board (cells s) = cell_id <$> cells s) as Hbkeys.
  { unfold Board. rewrite <- list_fmap_compose. reflexivity. }
  rewrite Hkeys, Hbkeys, (reachable_history_ids s Hs).
  destruct (Inv_board s HInv) as [Hids _]. rewrite Hids.
  split; [reflexivity|]. split; [apply NoDup_seq|].
  split; [unfold MovesHistory; rewrite length_fmap;
          apply reachable_history_length, Hs|].
  split; [|split; [reflexivity|split; [apply NoDup_seq|]]].
  - intros j it Hit.
    unfold MovesHistory in Hit. rewrite list_lookup_fmap in Hit.
    destruct (moves s !! j) as [e|] eqn:He; [|discriminate].
    injection Hit as <-. cbn [item_number item_clicked].
    assert (mkMove (id e) (entry_cells e) (entry_status e) (label e) = e)
      as -> by (destruct e; reflexivity).
    rewrite (entry_id _ _ _ (inv_entries s HInv j e He)).
    split; [reflexivity|]. split; [reflexivity|].
    cbn [offered]. apply list_elem_of_lookup. eauto.
  - intros it Hit. unfold Board in Hit.
    apply list_elem_of_fmap in Hit as (c & -> & Hc).
    split; [reflexivity|exact Hc].
Qed.

Lemma X12_rendered_lists_witness :
  reachable xWins
  ∧ item_key <$> MovesHistory (moves xWins) = [0; 1; 2; 3; 4; 5]
  ∧ board_key <$> Board (cells xWins) = [1; 2; 3; 4; 5; 6; 7; 8; 9].
Proof.
  assert (reachable xWins) as Hs
    by (apply clicks_reachable, reachable_initial).
  destruct (X12_rendered_lists xWins Hs) as (Hkeys & _ & _ & _ & Hboard & _).
  split; [exact Hs|]. split; [rewrite Hkeys; vm_compute; reflexivity|].
  rewrite Hboard. reflexivity.
Defined.

(** ** The end of a game *)

(** X13: the "Start new Game!" button, rendered while [gameOver] holds, is
    on the page exactly when the last entry of the history is a finished
    game; it is there whenever the current status is a win or the draw,
    and pressing it gives the session of the first render. *)
Theorem X13_new_game_button s :
  reachable s →
  (offered s newGameRequested ↔
   ∃ e, last (moves s) = Some e ∧ terminal (entry_status e) = true)
  ∧ (terminal (status s) = true → offered s newGameRequested)
  ∧ (offered s newGameRequested → dispatch s newGameRequested = initial).
Proof.
  intros Hs. pose proof (reachable_Inv s Hs) as HInv. cbn [offered dispatch].
  split; [|split].
  - rewrite (inv_flag s HInv). split.
    + intros (i & e & Hlook & Hterm). exists e. split; [|exact Hterm].
      pose proof (entry_last _ _ _ (inv_entries s HInv i e Hlook) Hterm) as Hi.
      rewrite last_lookup, <- Hi. exact Hlook.
    + intros (e & Hlast & Hterm). rewrite last_lookup in Hlast. eauto.
  - intros Hterm. apply (reachable_terminal_flag s Hs Hterm).
  - intros _. reflexivity.
Qed.

Lemma X13_new_game_button_witness :
  reachable xWins ∧ offered xWins newGameRequested
  ∧ dispatch xWins newGameRequested = initial.
Proof.
  assert (reachable xWins) as Hs
    by (apply clicks_reachable, reachable_initial).
  destruct (X13_new_game_button xWins Hs) as (_ & Hshown & Hreset).
  assert (offered xWins newGameRequested) as Hoff
    by (apply Hshown; vm_compute; reflexivity).
  split; [exact Hs|]. split; [exact Hoff|exact (Hreset Hoff)].
Defined.

(** X14: once the current status is a win or the draw, no click on the
    board changes anything: every rendered cell is refused, the session
    stays as it is and an alert is shown.  A session at move nine is
    always in that situation. *)
Theorem X14_finished_game_is_frozen s c :
  reachable s → c ∈ cells s →
  (terminal (status s) = true →
   accepted s c = false ∧ fst (makeTurn s c) = s
   ∧ is_Some (snd (makeTurn s c)))
  ∧ (moveId s = 9 → terminal (status s) = true).
Proof.
  intros Hs Hin. pose proof (reachable_Inv s Hs) as HInv. split.
  - intros Hterm.
    assert (accepted s c = false) as Hacc.
    { apply not_true_is_false. intros Hacc.
      apply (accepted_iff s c Hs Hin) in Hacc as [Hno _]. congruence. }
    split; [exact Hacc|]. unfold accepted in Hacc.
    destruct (snd (makeTurn_try s c s)) as [e|r] eqn:Hr; [|discriminate].
    split; [apply (rejected_unchanged s c e Hr)|].
    rewrite makeTurn_alert, Hr. destruct e as [kind|]; [eauto|].
    exfalso. exact (click_no_TypeError s c Hs Hr).
  - intros H9. pose proof (Inv_status s HInv) as Hst.
    destruct (statusAt_terminal (cells s) (moveId s)) as [H|(_ & Hne & _)];
      [congruence|contradiction].
Qed.

Lemma X14_finished_game_is_frozen_witness :
  reachable drawn ∧ terminal (status drawn) = true
  ∧ accepted drawn (mkCell 1 X) = false
  ∧ fst (makeTurn drawn (mkCell 1 X)) = drawn.
Proof.
  assert (reachable drawn) as Hs
    by (apply clicks_reachable, reachable_initial).
  assert (mkCell 1 X ∈ cells drawn) as Hin by (vm_compute; left).
  assert (terminal (status drawn) = true) as Hterm by (vm_compute; reflexivity).
  destruct (proj1 (X14_finished_game_is_frozen drawn _ Hs Hin) Hterm)
    as (Hacc & Hsame & _).
  split; [exact Hs|]. split; [exact Hterm|]. split; [exact Hacc|exact Hsame].
Defined.

(** ** The history is a chain of moves *)

Lemma markOne_insert st (cs : list Cell) j c :
  NoDup (cell_id <$> cs) → cs !! j = Some c →
  markOne st (cell_id c) <$> cs = <[j := mkCell (cell_id c) (mover st)]> cs.
Proof.
  intros Hnd Hj. apply list_eq. intros k. rewrite list_lookup_fmap.
  destruct (decide (k = j)) as [->|Hne].
  - rewrite list_lookup_insert_eq by (eapply lookup_lt_Some; eauto).
    rewrite Hj. cbn. rewrite markOne_hit by reflexivity. reflexivity.
  - rewrite list_lookup_insert_ne by congruence.
    destruct (cs !! k) as [c'|] eqn:Hk; [|reflexivity]. cbn.
    rewrite markOne_miss; [reflexivity|]. intros Hid. apply Hne.
    apply (NoDup_lookup _ _ _ (cell_id c) Hnd);
      rewrite list_lookup_fmap; [rewrite Hk|rewrite Hj]; cbn; congruence.
Qed.

Lemma ChainInv_initial : ChainInv initial.
Proof. intros i e e' _ Hnext. discriminate. Qed.

Lemma ChainInv_makeTurn s cell :
  Inv s → ChainInv s → cell ∈ cells s → ChainInv (fst (makeTurn s cell)).
Proof.
  intros HInv HC Hin. rewrite makeTurn_session.
  destruct (makeTurn_try_cases s cell)
    as [(_ & ->)|[(_ & _ & _ & ->)|[(_ & _ & _ & _ & ->)|
        (HX & HO & Hfree & won & Hwin & ->)]]]; try exact HC.
  cbn [fst]. intros i e e' Hlook Hnext. cbn [committed moves] in Hlook, Hnext.
  pose proof (Inv_moveId s HInv) as Hlt.
  assert (length (take (moveId s + 1) (moves s)) = moveId s + 1) as Htake
    by (rewrite length_take; lia).
  assert (S i < moveId s + 1 + 1) as Hbound.
  { apply lookup_lt_Some in Hnext. rewrite length_app, Htake in Hnext.
    cbn [length] in Hnext. lia. }
  rewrite lookup_app_l, lookup_take_lt in Hlook by lia.
  destruct (decide (S i < moveId s + 1)) as [Hi|Hi].
  { rewrite lookup_app_l, lookup_take_lt in Hnext by lia.
    exact (HC i e e' Hlook Hnext). }
  assert (i = moveId s) as -> by lia.
  rewrite lookup_app_r, Htake in Hnext by lia.
  replace (S (moveId s) - (moveId s + 1)) with 0 in Hnext by lia.
  injection Hnext as <-.
  destruct (inv_current s HInv) as (cur & Hcur & Hcells & Hstatus).
  assert (cur = e) as -> by congruence.
  destruct (accepted_turn s cell HInv Hin Hfree HX HO) as [Hturn _].
  exists cell. rewrite Hcells, Hstatus. cbn [createMove entry_cells].
  split; [exact Hin|]. split; [apply (accepted_null s cell HInv Hin Hfree)|].
  split; [|reflexivity]. rewrite Hturn. destruct (Nat.even _); reflexivity.
Qed.

Lemma reachable_ChainInv s : reachable s → ChainInv s.
Proof.
  induction 1 as [|s i Hs IH Hoff]; [exact ChainInv_initial|].
  destruct i as [c|e|]; cbn [dispatch offered] in *.
  - apply ChainInv_makeTurn; auto using reachable_Inv.
  - exact IH.
  - exact ChainInv_initial.
Qed.

(** X15: the history of a reachable session is a chain of legal moves:
    each entry's board is the board of the entry before it with exactly
    one position rewritten, an empty cell that received the mark of the
    player whose turn the earlier entry records. *)
Theorem X15_history_is_a_chain s i e e' :
  reachable s → moves s !! i = Some e → moves s !! S i = Some e' →
  terminal (entry_status e) = false
  ∧ ∃ j c, entry_cells e !! j = Some c ∧ value c = null
           ∧ entry_cells e'
             = <[j := mkCell (cell_id c) (mover (entry_status e))]>
                 (entry_cells e).
Proof.
  intros Hs Hlook Hnext. pose proof (reachable_Inv s Hs) as HInv.
  destruct (reachable_ChainInv s Hs i e e' Hlook Hnext)
    as (c & Hin & Hnull & Hterm & Hcells).
  split; [exact Hterm|].
  apply list_elem_of_lookup in Hin as [j Hj]. exists j, c.
  split; [exact Hj|]. split; [exact Hnull|].
  rewrite Hcells. apply markOne_insert; [|exact Hj].
  destruct (entry_board _ _ _ (inv_entries s HInv i e Hlook)) as [-> _].
  apply NoDup_seq.
Qed.

Lemma X15_history_is_a_chain_witness :
  reachable (clicks [5; 1] initial)
  ∧ moves (clicks [5; 1] initial) !! 1
    = Some (mkMove 1 (<[4 := mkCell 5 X]> createCells) O_turn "Go to move #1")
  ∧ moves (clicks [5; 1] initial) !! 2
    = Some (mkMove 2 (<[0 := mkCell 1 O]> (<[4 := mkCell 5 X]> createCells))
              X_turn "Go to move #2")
  ∧ terminal O_turn = false.
Proof.
  assert (reachable (clicks [5; 1] initial)) as Hs
    by (apply clicks_reachable, reachable_initial).
  assert (moves (clicks [5; 1] initial) !! 1
          = Some (mkMove 1 (<[4 := mkCell 5 X]> createCells) O_turn
                    "Go to move #1")) as H1 by (vm_compute; reflexivity).
  assert (moves (clicks [5; 1] initial) !! 2
          = Some (mkMove 2
                    (<[0 := mkCell 1 O]> (<[4 := mkCell 5 X]> createCells))
                    X_turn "Go to move #2")) as H2
    by (vm_compute; reflexivity).
  split; [exact Hs|]. split; [exact H1|]. split; [exact H2|].
  exact (proj1 (X15_history_is_a_chain _ _ _ _ Hs H1 H2)).
Defined.
